(** * Commit and resolved-item reports: a model of [reports/main.py]

    The development embeds the three functions of [src/reports/main.py]
    ([get_commits_for_repo_author], [get_resolved_for_contributor] and
    [main]) and proves the properties the specification states about
    them.

    Conventions of the embedding.
    - Python strings are [string]; integers are [Z]; Python lists are
      [list]; [None]-able values are [option].
    - A call that may raise returns in the monad [M], which also records
      the observable events of the run (lines printed, calls made on the
      GitHub client, tasks handed to the thread pool).
    - PyGithub's [PaginatedList] is lazy: the call that creates it does
      not raise, the requests happen when the list is iterated, indexed
      or asked for its [totalCount].  It is modelled by the outcome of
      those requests, [exn + list A]. *)

From Stdlib Require Import String Ascii List ZArith Bool Arith Lia Permutation.
From Stdlib Require Import DecimalString.
Import ListNotations.
Open Scope string_scope.
Open Scope list_scope.

(** ** Python exceptions *)

(** The classes that matter to [except Exception]: every class below
    derives from [Exception] except [KeyboardInterrupt] and [SystemExit],
    which derive from [BaseException] only. *)
Inductive exn_class :=
| GithubException
| ConnectionError
| ValueError
| AttributeError
| IndexError
| TypeError
| KeyboardInterrupt
| SystemExit.

Record exn := mk_exn { exn_cls : exn_class; exn_msg : string }.

Definition is_Exception (e : exn) : bool :=
  match exn_cls e with
  | KeyboardInterrupt | SystemExit => false
  | _ => true
  end.

(** ** Dates *)

Record datetime := mk_datetime { year : nat; month : nat; day : nat }.


Definition digit (n : nat) : ascii := ascii_of_nat (48 + n mod 10).

(** [pad w n]: the last [w] decimal digits of [n], zero padded. *)
Fixpoint pad (w n : nat) : string :=
  match w with
  | O => EmptyString
  | S w' => pad w' (n / 10) ++ String (digit n) EmptyString
  end.

(** [n] in decimal, without leading zeros; [fuel] bounds the number of
    digits. *)
Fixpoint digits_of (fuel n : nat) : string :=
  match fuel with
  | O => EmptyString
  | S fuel' =>
      if Nat.ltb n 10 then String (digit n) EmptyString
      else digits_of fuel' (n / 10) ++ String (digit n) EmptyString
  end.

Definition decimal (n : nat) : string := digits_of (S n) n.

(** [d.strftime("%Y-%m-%d")] as CPython prints it on Linux, where the C
    library does not pad [%Y]: the year in decimal without leading
    zeros ([999-01-02] for the second of January 999), month and day on
    two digits.  From the year 1000 on this is the four-digit form. *)
Definition strftime_Ymd (d : datetime) : string :=
  decimal (year d) ++ "-" ++ pad 2 (month d) ++ "-" ++ pad 2 (day d).

(** ** The objects handed out by the GitHub client *)

Definition PaginatedList (A : Type) : Type := (exn + list A)%type.

(** A commit of a listing.  [get_pulls] is the outcome of the requests
    behind [commit.get_pulls()]: the numbers of the linked pull
    requests, in the order the API lists them ([totalCount] is their
    count, [pulls[0].number] the first).  [stats] is completed lazily
    and so may raise too; [None] when no statistics are available. *)
Record Commit := mk_Commit {
  sha : string;
  message : string;
  author_name : string;
  committer_name : string;
  html_url : string;
  stats : exn + option Z;
  get_pulls : PaginatedList Z
}.

Record Repository := mk_Repository {
  get_commits : string -> datetime -> datetime -> PaginatedList Commit
}.

(** A search result.  [item_repository] is [(owner.login, name)] of
    [item.repository], fetched on first access. *)
Record Item := mk_Item {
  item_number : Z;
  item_title : string;
  item_state : string;
  item_user : option string;
  item_html_url : string;
  item_created_at : option datetime;
  item_updated_at : option datetime;
  item_pull_request : option string;
  item_repository : exn + (string * string)
}.

(** The remote service as one client sees it. *)
Record Github := mk_Github {
  get_repo : string -> exn + Repository;
  search_issues : string -> PaginatedList Item
}.

(** ** Output rows *)

Record CommitRecord := mk_CommitRecord {
  cr_sha : string;
  cr_message : string;
  cr_author : string;
  cr_committer : string;
  cr_url : string;
  cr_total_changes : Z;
  cr_organization : string;
  cr_repository : string
}.

Inductive item_type := PR | Issue.

Record ResolvedItemRecord := mk_ResolvedItemRecord {
  rr_number : Z;
  rr_title : string;
  rr_type : item_type;
  rr_state : string;
  rr_author : option string;
  rr_url : string;
  rr_created_at : option string;
  rr_updated_at : option string;
  rr_organization : string;
  rr_repository : string;
  rr_contributor : string
}.

(** A task triple [(owner, repo, username)]. *)
Definition Task : Type := (string * string * string)%type.

(** ** Events and the monad of the run *)

Inductive event :=
| Print (line : string)
| CallGetRepo (full_name : string)
| CallGetCommits (author : string) (since until : datetime)
| CallGetPulls (commit_sha : string)
| CallSearchIssues (query : string)
| CallClose
| SubmitCommits (task : Task)
| SubmitResolved (username : string)
| ToCsv (filename : string).

(** A computation emits events and then returns a value or raises. *)
Definition M (A : Type) : Type := (list event * (exn + A))%type.

Definition ret {A} (a : A) : M A := ([], inr a).
Definition raise {A} (e : exn) : M A := ([], inl e).
Definition emit (ev : event) : M unit := ([ev], inr tt).
Definition print (line : string) : M unit := emit (Print line).
Definition lift {A} (r : exn + A) : M A := ([], r).

Definition bind {A B} (m : M A) (f : A -> M B) : M B :=
  match m with
  | (w, inl e) => (w, inl e)
  | (w, inr a) => let (w', r) := f a in (w ++ w', r)
  end.

Notation "x <- m ;; k" := (bind m (fun x => k))
  (at level 61, m at next level, right associativity).
Notation "m ;;; k" := (bind m (fun _ => k))
  (at level 61, right associativity).

(** [try: body except Exception as e: handler e] *)
Definition try_except_Exception {A} (body : M A) (handler : exn -> M A) : M A :=
  match body with
  | (w, inl e) =>
      if is_Exception e then let (w', r) := handler e in (w ++ w', r)
      else (w, inl e)
  | (w, inr a) => (w, inr a)
  end.

(** [try: body finally: fin] *)
Definition try_finally {A} (body : M A) (fin : M unit) : M A :=
  let (w, r) := body in
  match fin with
  | (w', inl e') => (w ++ w', inl e')
  | (w', inr _) => (w ++ w', r)
  end.

Definition events {A} (m : M A) : list event := fst m.
Definition outcome {A} (m : M A) : exn + A := snd m.

(** A [for] loop threading an accumulator. *)
Fixpoint for_each {A S} (body : S -> A -> M S) (l : list A) (s : S) : M S :=
  match l with
  | [] => ret s
  | x :: l' => s' <- body s x ;; for_each body l' s'
  end.

(** ** Threads *)

(** The events of the worker threads are the calls on a client and the
    diagnostic of a failed fetch; every other event is of the main
    thread.  [main_thread] keeps the events of the main thread, in
    order. *)
Definition by_worker (ev : event) : bool :=
  match ev with
  | Print line => String.prefix "  Error " line
  | CallGetRepo _ | CallGetCommits _ _ _ | CallGetPulls _
  | CallSearchIssues _ | CallClose => true
  | SubmitCommits _ | SubmitResolved _ | ToCsv _ => false
  end.

Definition main_thread (evs : list event) : list event :=
  filter (fun ev => negb (by_worker ev)) evs.

(** The [with ThreadPoolExecutor(...) as executor:] block.  The worker
    threads run while the main thread goes through the block, and the
    block is left when every worker is done.  [body] gives the events of
    the block thread after thread; [schedule] puts them in the order in
    which they happen. *)
Definition with_pool {A} (schedule : list event -> list event) (body : M A) : M A :=
  (schedule (events body), outcome body).

(** ** [get_commits_for_repo_author] *)

(** The three lists of the grouping loop. *)
Record groups := mk_groups {
  prs : list Z;
  pr_commits : list Commit;
  standalone_commits : list Commit
}.

Definition no_groups : groups := mk_groups [] [] [].

(** The body of the grouping loop once [pulls] is known. *)
Definition group_commit (st : groups) (commit : Commit) (pulls : list Z) : groups :=
  if Nat.eqb (length pulls) 1 then
    match pulls with
    | number :: _ =>
        if existsb (Z.eqb number) (prs st) then st
        else mk_groups (prs st ++ [number])
                       (pr_commits st ++ [commit])
                       (standalone_commits st)
    | [] => st
    end
  else if Nat.eqb (length pulls) 0 then
    mk_groups (prs st) (pr_commits st) (standalone_commits st ++ [commit])
  else st.

(** The loop on commits whose linked pull requests are already at hand. *)
Definition classify (cs : list (Commit * list Z)) : groups :=
  fold_left (fun st cp => group_commit st (fst cp) (snd cp)) cs no_groups.

Definition kept (st : groups) : list Commit :=
  pr_commits st ++ standalone_commits st.

(** [message.split("\n")[0]] *)
Fixpoint first_line (s : string) : string :=
  match s with
  | EmptyString => EmptyString
  | String c s' =>
      if Ascii.eqb c "010"%char then EmptyString else String c (first_line s')
  end.

Definition commit_record (owner repo : string) (commit : Commit)
    (commit_stats : option Z) : CommitRecord :=
  mk_CommitRecord (sha commit)
                  (first_line (message commit))
                  (author_name commit)
                  (committer_name commit)
                  (html_url commit)
                  (match commit_stats with Some total => total | None => 0%Z end)
                  owner repo.

Definition commit_details (owner repo : string) (commit : Commit) : M CommitRecord :=
  commit_stats <- lift (stats commit) ;;
  ret (commit_record owner repo commit commit_stats).

(** The body of the [try] block.  The source iterates the listing page
    by page while it groups; here the listing is read first, which
    changes no result: a failing page ends the body with the same
    exception either way.  Only the calls differ, and only then: the
    source has looked up the pull requests of the commits of the pages
    before the failing one, the model of none. *)
Definition get_commits_body (g : Github) (owner repo author : string)
    (start_date end_date : datetime) : M (list CommitRecord) :=
  emit (CallGetRepo (owner ++ "/" ++ repo)) ;;;
  repository <- lift (get_repo g (owner ++ "/" ++ repo)) ;;
  emit (CallGetCommits author start_date end_date) ;;;
  commits <- lift (get_commits repository author start_date end_date) ;;
  st <- for_each (fun st commit =>
                    emit (CallGetPulls (sha commit)) ;;;
                    pulls <- lift (get_pulls commit) ;;
                    ret (group_commit st commit pulls))
                 commits no_groups ;;
  for_each (fun results commit =>
              r <- commit_details owner repo commit ;;
              ret (results ++ [r]))
           (pr_commits st ++ standalone_commits st) [].

Definition get_commits_for_repo_author (g : Github) (owner repo author : string)
    (start_date end_date : datetime) : M (list CommitRecord) :=
  try_except_Exception
    (get_commits_body g owner repo author start_date end_date)
    (fun e =>
       print ("  Error processing " ++ owner ++ "/" ++ repo ++ " for " ++ author
              ++ ": " ++ exn_msg e) ;;;
       ret []).

(** ** [get_resolved_for_contributor] *)

(** [sep.join(l)] *)
Fixpoint join (sep : string) (l : list string) : string :=
  match l with
  | [] => EmptyString
  | [s] => s
  | s :: l' => s ++ sep ++ join sep l'
  end.

Definition task_eqb (a b : Task) : bool :=
  match a, b with
  | (o1, r1, u1), (o2, r2, u2) =>
      String.eqb o1 o2 && String.eqb r1 r2 && String.eqb u1 u2
  end.

(** [t in tasks] *)
Definition in_tasks (t : Task) (tasks : list Task) : bool :=
  existsb (task_eqb t) tasks.

Definition repo_filter (t : Task) : string :=
  match t with (owner, repo, _) => "repo:" ++ owner ++ "/" ++ repo end.

Definition base_query (tasks : list Task) (contributor : string)
    (start_date end_date : datetime) : string :=
  join " " (map repo_filter tasks) ++ " "
  ++ "involves:" ++ contributor ++ " "
  ++ "closed:" ++ strftime_Ymd start_date ++ ".." ++ strftime_Ymd end_date.

Definition issues_query (tasks : list Task) (contributor : string)
    (start_date end_date : datetime) : string :=
  "is:issue " ++ base_query tasks contributor start_date end_date.

Definition prs_query (tasks : list Task) (contributor : string)
    (start_date end_date : datetime) : string :=
  "is:pr " ++ base_query tasks contributor start_date end_date
  ++ " -author:" ++ contributor.

Section Resolved.

(** [datetime.isoformat], left to the library. *)
Variable isoformat : datetime -> string.

Definition resolved_details (item : Item) (item_owner item_repo contributor : string)
    : ResolvedItemRecord :=
  mk_ResolvedItemRecord
    (item_number item)
    (item_title item)
    (match item_pull_request item with Some _ => PR | None => Issue end)
    (item_state item)
    (item_user item)
    (item_html_url item)
    (option_map isoformat (item_created_at item))
    (option_map isoformat (item_updated_at item))
    item_owner item_repo contributor.

(** One iteration of the loop on search results. *)
Definition resolve_item (tasks : list Task) (contributor : string)
    (results : list ResolvedItemRecord) (item : Item) : M (list ResolvedItemRecord) :=
  r <- lift (item_repository item) ;;
  let (item_owner, item_repo) := r in
  if negb (in_tasks (item_owner, item_repo, contributor) tasks) then ret results
  else ret (results ++ [resolved_details item item_owner item_repo contributor]).

(** The body of the [try] block.  Both calls of [search_issues] are made
    before [[*issues, *prs]] iterates the first list and then the
    second. *)
Definition get_resolved_body (g : Github) (tasks : list Task) (contributor : string)
    (start_date end_date : datetime) : M (list ResolvedItemRecord) :=
  emit (CallSearchIssues (issues_query tasks contributor start_date end_date)) ;;;
  let issues := search_issues g (issues_query tasks contributor start_date end_date) in
  emit (CallSearchIssues (prs_query tasks contributor start_date end_date)) ;;;
  let prs := search_issues g (prs_query tasks contributor start_date end_date) in
  issues <- lift issues ;;
  prs <- lift prs ;;
  for_each (resolve_item tasks contributor) (issues ++ prs) [].

Definition get_resolved_for_contributor (g : Github) (tasks : list Task)
    (contributor : string) (start_date end_date : datetime)
    : M (list ResolvedItemRecord) :=
  try_except_Exception
    (get_resolved_body g tasks contributor start_date end_date)
    (fun e =>
       print ("  Error fetching issues/PRs for " ++ contributor ++ ": " ++ exn_msg e) ;;;
       ret []).

(** ** [main] *)

(** The configuration module, which this file only calls.  A contributor
    is a pair whose second component is the username
    ([for _, username in contributors]). *)
Record Config := mk_Config {
  get_current_pi : string;
  get_time_range : string -> option (string * string);
  get_contributors_for_pi : string -> list (string * string);
  get_repos_x_contributors_for_pi : string -> list Task
}.

Definition str_of_nat (n : nat) : string :=
  NilZero.string_of_uint (Nat.to_uint n).

Definition resolved_key (r : ResolvedItemRecord) : Z * string * string :=
  (rr_number r, rr_organization r, rr_repository r).

Definition key_eqb (a b : Z * string * string) : bool :=
  match a, b with
  | (n1, o1, r1), (n2, o2, r2) => Z.eqb n1 n2 && String.eqb o1 o2 && String.eqb r1 r2
  end.

(** [DataFrame.drop_duplicates(subset=...)] with pandas' default
    [keep="first"]: a row is dropped when an earlier row has its key. *)
Fixpoint drop_duplicates_from (seen : list (Z * string * string))
    (rows : list ResolvedItemRecord) : list ResolvedItemRecord :=
  match rows with
  | [] => []
  | r :: rows' =>
      if existsb (key_eqb (resolved_key r)) seen
      then drop_duplicates_from seen rows'
      else r :: drop_duplicates_from (seen ++ [resolved_key r]) rows'
  end.

Definition drop_duplicates (rows : list ResolvedItemRecord) : list ResolvedItemRecord :=
  drop_duplicates_from [] rows.

(** The rows a finished future contributes when its result is taken. *)
Definition rows_of {A} (r : exn + list A) : list A :=
  match r with inr rows => rows | inl _ => [] end.

(** What a worker thread leaves in a future: the task's events happen,
    its result or exception is stored. *)
Definition run_future {A} (task : M A) : M (exn + A) :=
  (events task, inr (outcome task)).

Fixpoint run_futures {A} (tasks : list (M A)) : M (list (exn + A)) :=
  match tasks with
  | [] => ret []
  | t :: tasks' =>
      r <- run_future t ;;
      rs <- run_futures tasks' ;;
      ret (r :: rs)
  end.

(** The world outside: the service as reached with or without a token,
    the configuration, [datetime.strptime(s, "%Y%m%d")], what comes of
    writing a given table to the file of a given name with [to_csv]
    (nothing, or an error: a missing directory, a full disk, a text that
    cannot be encoded), the order in which [as_completed] hands back the
    futures of a dict, which is some rearrangement of them, and the
    order in which the events of the threads of the pool fall.

    Inside the [with] block the worker threads run concurrently with
    the main thread.  The block is written down thread after thread:
    the main thread submits, every task runs as a whole, in the order
    its future is handed back, and the main thread collects.  Every
    submitted task runs, also when the main thread raises while it
    collects, since leaving the [with] block waits for the pool.  What
    happens is [schedule] of these events: some rearrangement of them
    that keeps the events of the main thread in their order.  Nothing
    more is assumed of it, so what holds for every such [schedule] holds
    for every way the threads can interleave.

    [max_workers] is a count.  [ThreadPoolExecutor] refuses 0 with a
    [ValueError] before any task is submitted (as it refuses a negative
    number, which the type leaves out). *)
Variable remote : option string -> Github.
Variable config : Config.
Variable strptime_Ymd : string -> exn + datetime.
Variable to_csv : forall A : Type, list A -> string -> exn + unit.
Variable as_completed : forall A : Type, list A -> list A.
Hypothesis as_completed_perm : forall A (l : list A), Permutation l (as_completed A l).
Variable schedule : list event -> list event.
Hypothesis schedule_perm : forall evs, Permutation evs (schedule evs).
Hypothesis schedule_main : forall evs, main_thread (schedule evs) = main_thread evs.

(** [if pi is None: pi = get_current_pi()] *)
Definition resolve_pi (pi : option string) : string :=
  match pi with None => get_current_pi config | Some p => p end.

Definition make_client (token : option string) : Github :=
  match token with
  | Some (String c t) => remote (Some (String c t))
  | _ => remote None
  end.

Definition process_commits_task (token : option string)
    (time_start time_end : datetime) (task : Task) : M (list CommitRecord) :=
  match task with
  | (owner, repo, username) =>
      let g := make_client token in
      try_finally
        (get_commits_for_repo_author g owner repo username time_start time_end)
        (emit CallClose)
  end.

Definition process_resolved_task (token : option string) (tasks : list Task)
    (time_start time_end : datetime) (username : string) : M (list ResolvedItemRecord) :=
  let g := make_client token in
  try_finally
    (get_resolved_for_contributor g tasks username time_start time_end)
    (emit CallClose).

(** One round of a collecting loop: count, report, take the result. *)
Definition collect {A} (total : nat) (st : nat * list A) (future : exn + list A)
    : M (nat * list A) :=
  let completed := S (fst st) in
  print ("  Progress: " ++ str_of_nat completed ++ "/" ++ str_of_nat total) ;;;
  rows <- lift future ;;
  ret (completed, snd st ++ rows).

(** The body of the [with] block: the two rounds of [submit], the
    tasks at work, the two collecting loops.  It gives [all_commits] and
    [all_resolved]. *)
Definition pool_block (token : option string) (time_start time_end : datetime)
    (tasks : list Task) (contributors : list (string * string))
    : M (list CommitRecord * list ResolvedItemRecord) :=
  for_each (fun _ task => emit (SubmitCommits task)) tasks tt ;;;
  for_each (fun _ c => emit (SubmitResolved (snd c))) contributors tt ;;;
  let commits_futures := map (process_commits_task token time_start time_end) tasks in
  let resolved_issues_futures :=
    map (fun c => process_resolved_task token tasks time_start time_end (snd c))
        contributors in
  done_commits <- run_futures (as_completed _ commits_futures) ;;
  done_resolved <- run_futures (as_completed _ resolved_issues_futures) ;;
  let total := length tasks + length contributors in
  st <- for_each (collect total) done_commits (0, []) ;;
  st' <- for_each (collect total) done_resolved (fst st, []) ;;
  ret (snd st, snd st').

(** [main] returns the two tables it writes: the rows of
    [<pi>-authored-commits.csv] and of [<pi>-resolved-issues-prs.csv]. *)
Definition main (token : option string) (pi : option string) (max_workers : nat)
    : M (list CommitRecord * list ResolvedItemRecord) :=
  let pi := resolve_pi pi in
  match get_time_range config pi with
  | None => raise (mk_exn ValueError ("No date range found for PI: " ++ pi))
  | Some time_range =>
      time_start <- lift (strptime_Ymd (fst time_range)) ;;
      time_end <- lift (strptime_Ymd (snd time_range)) ;;
      let contributors := get_contributors_for_pi config pi in
      let tasks := get_repos_x_contributors_for_pi config pi in
      print ("PI: " ++ pi ++ " (" ++ strftime_Ymd time_start ++ " to "
             ++ strftime_Ymd time_end ++ ")") ;;;
      print ("  " ++ str_of_nat (length tasks) ++ " repos x contributors") ;;;
      if Nat.ltb (length tasks) 1 then
        raise (mk_exn ValueError "No repos x contributors found in config.")
      else
        print ("Querying " ++ str_of_nat (length tasks)
               ++ " repo×contributor combinations with "
               ++ str_of_nat max_workers ++ " workers...") ;;;
        (if Nat.eqb max_workers 0
         then raise (mk_exn ValueError "max_workers must be greater than 0")
         else ret tt) ;;;
        collected <- with_pool schedule
                       (pool_block token time_start time_end tasks contributors) ;;
        let all_commits := fst collected in
        let all_resolved := snd collected in
        print ("Found " ++ str_of_nat (length all_commits) ++ " authored commits") ;;;
        print ("Found " ++ str_of_nat (length all_resolved) ++ " resolved issues/PRs") ;;;
        let df := all_commits in
        emit (ToCsv ("output/" ++ pi ++ "-authored-commits.csv")) ;;;
        lift (to_csv _ df ("output/" ++ pi ++ "-authored-commits.csv")) ;;;
        print ("Saved to " ++ "output/" ++ pi ++ "-authored-commits.csv") ;;;
        let df_resolved := drop_duplicates all_resolved in
        emit (ToCsv ("output/" ++ pi ++ "-resolved-issues-prs.csv")) ;;;
        lift (to_csv _ df_resolved ("output/" ++ pi ++ "-resolved-issues-prs.csv")) ;;;
        print ("Saved to " ++ "output/" ++ pi ++ "-resolved-issues-prs.csv") ;;;
        ret (df, df_resolved)
  end.

(** The bodies the two kinds of task protect with [try], and whether
    they return. *)
Definition commit_task_body (token : option string) (time_start time_end : datetime)
    (task : Task) : M (list CommitRecord) :=
  match task with
  | (owner, repo, username) =>
      get_commits_body (make_client token) owner repo username time_start time_end
  end.

Definition resolved_task_body (token : option string) (tasks : list Task)
    (time_start time_end : datetime) (c : string * string) : M (list ResolvedItemRecord) :=
  get_resolved_body (make_client token) tasks (snd c) time_start time_end.

Definition returns {A} (m : M A) : bool :=
  match outcome m with inr _ => true | inl _ => false end.

(** The results stored in the futures of the two kinds of task, in the
    order [as_completed] hands the futures back. *)
Definition done_commits (token : option string) (time_start time_end : datetime)
    (tasks : list Task) : list (exn + list CommitRecord) :=
  map outcome (as_completed _ (map (process_commits_task token time_start time_end) tasks)).

Definition done_resolved (token : option string) (time_start time_end : datetime)
    (tasks : list Task) (contributors : list (string * string))
    : list (exn + list ResolvedItemRecord) :=
  map outcome
      (as_completed _
         (map (fun c => process_resolved_task token tasks time_start time_end (snd c))
              contributors)).

(** The two tables of a run whose tasks have all returned: [df] and
    [df_resolved]. *)
Definition commits_table (token : option string) (time_start time_end : datetime)
    (tasks : list Task) : list CommitRecord :=
  flat_map rows_of (done_commits token time_start time_end tasks).

Definition resolved_table (token : option string) (time_start time_end : datetime)
    (tasks : list Task) (contributors : list (string * string))
    : list ResolvedItemRecord :=
  drop_duplicates (flat_map rows_of (done_resolved token time_start time_end tasks contributors)).

End Resolved.

(** * Notions used to state the properties *)

(** [pos_filter p pre l] keeps, in order, the elements of [l] that [p]
    accepts given the elements before them ([pre], then the earlier
    elements of [l]). *)
Fixpoint pos_filter {A} (p : list A -> A -> bool) (pre l : list A) : list A :=
  match l with
  | [] => []
  | x :: l' => (if p pre x then [x] else []) ++ pos_filter p (pre ++ [x]) l'
  end.

(** [has_sole n y]: commit [y] is linked to pull request [n] and to no
    other. *)
Definition has_sole (n : Z) (y : Commit * list Z) : bool :=
  match snd y with
  | [m] => Z.eqb n m
  | _ => false
  end.

(** The commit is linked to exactly one pull request, and no earlier
    commit is linked to that pull request alone. *)
Definition first_sole (pre : list (Commit * list Z)) (x : Commit * list Z) : bool :=
  match snd x with
  | [n] => negb (existsb (has_sole n) pre)
  | _ => false
  end.

Definition standalone (x : Commit * list Z) : bool :=
  match snd x with
  | [] => true
  | _ => false
  end.

Definition classify_from (st : groups) (cs : list (Commit * list Z)) : groups :=
  fold_left (fun st cp => group_commit st (fst cp) (snd cp)) cs st.

(** The seen list holds the pull requests that some earlier commit is
    linked to alone. *)
Definition seen_inv (pre : list (Commit * list Z)) (st : groups) : Prop :=
  forall n, existsb (Z.eqb n) (prs st) = existsb (has_sole n) pre.


(** The reading under which a pull request counts as seen as soon as it
    is among the pull requests of any earlier commit, also of one linked
    to several. *)
Definition unseen_anywhere (pre : list (Commit * list Z)) (x : Commit * list Z) : bool :=
  match snd x with
  | [n] => negb (existsb (fun y => existsb (Z.eqb n) (snd y)) pre)
  | _ => false
  end.

(** ** Sample data *)

Definition sample_commit (s : string) (pulls : list Z) : Commit :=
  mk_Commit s ("change " ++ s ++ String "010"%char "details") "Ada" "Bob"
            ("https://github.com/org/repo/commit/" ++ s) (inr (Some 7%Z)) (inr pulls).

Definition linked (s : string) (pulls : list Z) : Commit * list Z :=
  (sample_commit s pulls, pulls).

(** The scenario of the specification. *)
Definition scenario_commits : list (Commit * list Z) :=
  [linked "a" [101%Z]; linked "b" [101%Z]; linked "c" []; linked "d" [55%Z; 56%Z]].

(** A commit linked to two pull requests, then one linked to the first
    of them alone. *)
Definition ambiguous_then_sole : list (Commit * list Z) :=
  [linked "d" [55%Z; 56%Z]; linked "e" [55%Z]].

(** What the requests behind a commit yield when they succeed. *)
Definition pulls_of (c : Commit) : list Z :=
  match get_pulls c with inr ps => ps | inl _ => [] end.

Definition stats_of (c : Commit) : option Z :=
  match stats c with inr s => s | inl _ => None end.

Definition with_pulls (c : Commit) : Commit * list Z := (c, pulls_of c).

Definition sample_start : datetime := mk_datetime 2026 1 5.
Definition sample_end : datetime := mk_datetime 2026 3 27.


Definition sample_repository : Repository :=
  mk_Repository (fun author _ _ =>
    if String.eqb author "ada" then inr (map fst scenario_commits) else inr []).

(** The diagnostics of the two fetch tasks. *)
Definition commits_diagnostic (owner repo author : string) (e : exn) : string :=
  "  Error processing " ++ owner ++ "/" ++ repo ++ " for " ++ author ++ ": " ++ exn_msg e.

Definition resolved_diagnostic (contributor : string) (e : exn) : string :=
  "  Error fetching issues/PRs for " ++ contributor ++ ": " ++ exn_msg e.

(** A row [r] comes from an item of [items] that lies within [tasks]. *)
Definition row_from (isoformat : datetime -> string) (tasks : list Task) (contributor : string) (items : list Item)
    (r : ResolvedItemRecord) : Prop :=
  exists item,
    In item items /\
    item_repository item = inr (rr_organization r, rr_repository r) /\
    In (rr_organization r, rr_repository r, contributor) tasks /\
    r = resolved_details isoformat item (rr_organization r) (rr_repository r) contributor.


(** ** Reading queries and dates *)



Definition is_digit (c : ascii) : bool :=
  Nat.leb 48 (nat_of_ascii c) && Nat.leb (nat_of_ascii c) 57.

Definition digit_value (c : ascii) : nat := nat_of_ascii c - 48.

Definition number_of (cs : list ascii) : nat :=
  fold_left (fun acc c => 10 * acc + digit_value c) cs 0.


(** The first exception among the results of a list of futures. *)
Fixpoint first_error {A} (l : list (exn + A)) : option exn :=
  match l with
  | [] => None
  | inl e :: _ => Some e
  | inr _ :: l' => first_error l'
  end.

(** Events of the resolved-item side: a resolved-item task is handed to
    the pool, or a search is made. *)
Definition is_resolved_activity (ev : event) : bool :=
  match ev with
  | SubmitResolved _ | CallSearchIssues _ => true
  | _ => false
  end.

(** Events that create a fetch task or call the GitHub client. *)
Definition is_fetch_activity (ev : event) : bool :=
  match ev with
  | Print _ | ToCsv _ => false
  | _ => true
  end.

Definition CommitRecord_eq_dec (a b : CommitRecord) : {a = b} + {a <> b}.
Proof.
  decide equality; try apply string_dec; apply Z.eq_dec.
Defined.

Definition Task_eq_dec (a b : Task) : {a = b} + {a <> b}.
Proof.
  repeat decide equality; apply ascii_dec.
Defined.

(** ** A sample world *)

Definition sample_item (n : Z) (owner repo : string) (pull_request : option string) : Item :=
  mk_Item n "Fix the build" "closed" (Some "carol")
          ("https://github.com/" ++ owner ++ "/" ++ repo ++ "/issues/7")
          (Some sample_start) None pull_request (inr (owner, repo)).

(** A service with one repository, [org/repo]; its searches return an
    issue of [org/repo] and one of [org/other], then a pull request of
    [org/repo]. *)
Definition sample_github : Github :=
  mk_Github
    (fun full_name =>
       if String.eqb full_name "org/repo" then inr sample_repository
       else inl (mk_exn GithubException "404 Not Found"))
    (fun query =>
       if prefix "is:issue" query
       then inr [sample_item 7 "org" "repo" None; sample_item 8 "org" "other" None]
       else inr [sample_item 9 "org" "repo" (Some "https://github.com/org/repo/pull/9")]).

(** A service whose commit [x] fails with a [TypeError] when its pull
    requests are looked at, as a defect in the grouping would. *)
Definition faulty_github : Github :=
  mk_Github
    (fun _ => inr (mk_Repository (fun _ _ _ =>
       inr [sample_commit "a" [101%Z];
            mk_Commit "x" "broken" "Ada" "Bob" "https://github.com/org/repo/commit/x"
                      (inr None)
                      (inl (mk_exn TypeError "'NoneType' object is not subscriptable"))])))
    (fun _ => inr []).

(** A service on which every call is interrupted from the keyboard. *)
Definition interrupted_github : Github :=
  mk_Github (fun _ => inl (mk_exn KeyboardInterrupt ""))
            (fun _ => inl (mk_exn KeyboardInterrupt "")).

Definition sample_isoformat (d : datetime) : string :=
  strftime_Ymd d ++ "T00:00:00+00:00".

Definition sample_strptime (s : string) : exn + datetime :=
  match list_ascii_of_string s with
  | [y1; y2; y3; y4; m1; m2; d1; d2] =>
      if forallb is_digit [y1; y2; y3; y4; m1; m2; d1; d2]
      then inr (mk_datetime (number_of [y1; y2; y3; y4]) (number_of [m1; m2])
                            (number_of [d1; d2]))
      else inl (mk_exn ValueError "time data does not match format '%Y%m%d'")
  | _ => inl (mk_exn ValueError "time data does not match format '%Y%m%d'")
  end.

(** Every file can be written. *)
Definition writable (A : Type) (df : list A) (filename : string) : exn + unit := inr tt.

(** The futures come back last submitted first. *)
Definition last_first (A : Type) (l : list A) : list A := rev l.

(** Every worker is done before the main thread collects. *)
Definition workers_first (evs : list event) : list event := evs.

Definition sample_config (tasks : list Task) (contributors : list (string * string))
    : Config :=
  mk_Config "pi-26.1"
            (fun pi => if String.eqb pi "pi-26.1" then Some ("20260105", "20260327")
                       else None)
            (fun _ => contributors)
            (fun _ => tasks).

Definition sample_main (g : Github) (tasks : list Task)
    (contributors : list (string * string)) (pi : option string)
    : M (list CommitRecord * list ResolvedItemRecord) :=
  main sample_isoformat (fun _ => g) (sample_config tasks contributors)
       sample_strptime writable last_first workers_first (Some "token") pi 10.

(** The tables of a run that returned. *)
Definition tables (run : M (list CommitRecord * list ResolvedItemRecord))
    : list CommitRecord * list ResolvedItemRecord :=
  match outcome run with inr t => t | inl _ => ([], []) end.

Definition ada_task : Task := ("org", "repo", "ada").
Definition missing_task : Task := ("org", "missing", "ada").
Definition alice_tasks : list Task := [("org", "repo", "alice")].

Definition row_a : CommitRecord :=
  commit_record "org" "repo" (sample_commit "a" [101%Z]) (Some 7%Z).

Definition two_reviewers_tasks : list Task :=
  [("org", "repo", "alice"); ("org", "repo", "bob")].

Definition two_reviewers : list (string * string) :=
  [("Alice", "alice"); ("Bob", "bob")].

(** * Further notions *)

(** The string has a line feed. *)
Definition has_newline (s : string) : bool :=
  existsb (Ascii.eqb "010"%char) (list_ascii_of_string s).

(** The calls of a commit fetch task that looks at every commit of
    [commits]. *)
Definition commit_task_calls (owner repo author : string)
    (start_date end_date : datetime) (commits : list Commit) : list event :=
  [CallGetRepo (owner ++ "/" ++ repo); CallGetCommits author start_date end_date]
  ++ map (fun c => CallGetPulls (sha c)) commits.

(** The rows one search result contributes: its row when its repository
    loads and lies within the tasks of the contributor, none otherwise. *)
Definition item_rows (isoformat : datetime -> string) (tasks : list Task)
    (contributor : string) (item : Item) : list ResolvedItemRecord :=
  match item_repository item with
  | inr (item_owner, item_repo) =>
      if in_tasks (item_owner, item_repo, contributor) tasks
      then [resolved_details isoformat item item_owner item_repo contributor]
      else []
  | inl _ => []
  end.

(** The qualifiers of the filter string, in order. *)
Definition qualifiers (tasks : list Task) (contributor : string)
    (start_date end_date : datetime) : list string :=
  map repo_filter tasks
  ++ [("involves:" ++ contributor)%string;
      ("closed:" ++ strftime_Ymd start_date ++ ".." ++ strftime_Ymd end_date)%string].

(** The lines and events of a run, as [main] words them. *)
Definition progress_line (total completed : nat) : string :=
  "  Progress: " ++ str_of_nat completed ++ "/" ++ str_of_nat total.

Definition opening_lines (pi : string) (time_start time_end : datetime)
    (n_tasks max_workers : nat) : list event :=
  [Print ("PI: " ++ pi ++ " (" ++ strftime_Ymd time_start ++ " to "
          ++ strftime_Ymd time_end ++ ")");
   Print ("  " ++ str_of_nat n_tasks ++ " repos x contributors");
   Print ("Querying " ++ str_of_nat n_tasks ++ " repo×contributor combinations with "
          ++ str_of_nat max_workers ++ " workers...")].

Definition closing_events (pi : string) (n_commits n_resolved : nat) : list event :=
  [Print ("Found " ++ str_of_nat n_commits ++ " authored commits");
   Print ("Found " ++ str_of_nat n_resolved ++ " resolved issues/PRs");
   ToCsv ("output/" ++ pi ++ "-authored-commits.csv");
   Print ("Saved to output/" ++ pi ++ "-authored-commits.csv");
   ToCsv ("output/" ++ pi ++ "-resolved-issues-prs.csv");
   Print ("Saved to output/" ++ pi ++ "-resolved-issues-prs.csv")].

(** The closing events as far as the run gets: it stops at the first
    file that [to_csv] cannot write. *)
Definition closing_events_until (pi : string) (n_commits n_resolved : nat)
    (written written_resolved : exn + unit) : list event :=
  [Print ("Found " ++ str_of_nat n_commits ++ " authored commits");
   Print ("Found " ++ str_of_nat n_resolved ++ " resolved issues/PRs");
   ToCsv ("output/" ++ pi ++ "-authored-commits.csv")]
  ++ match written with
     | inl _ => []
     | inr _ =>
         [Print ("Saved to output/" ++ pi ++ "-authored-commits.csv");
          ToCsv ("output/" ++ pi ++ "-resolved-issues-prs.csv")]
         ++ match written_resolved with
            | inl _ => []
            | inr _ => [Print ("Saved to output/" ++ pi ++ "-resolved-issues-prs.csv")]
            end
     end.

(** How many futures a collecting loop takes the result of: all of them,
    or those up to the first that raised. *)
Fixpoint collected {A} (done : list (exn + A)) : nat :=
  match done with
  | [] => 0
  | inl _ :: _ => 1
  | inr _ :: done' => S (collected done')
  end.

Definition is_close (ev : event) : bool :=
  match ev with CallClose => true | _ => false end.

Definition is_to_csv (ev : event) : bool :=
  match ev with ToCsv _ => true | _ => false end.

(** The token of the script: [os.environ.get(TOKEN_ENV_VAR) or
    os.environ.get("GITHUB_TOKEN")], for the name [settings] gives. *)
Definition script_token (environ : string -> option string) (TOKEN_ENV_VAR : string)
    : option string :=
  match environ TOKEN_ENV_VAR with
  | Some (String c s) => Some (String c s)
  | _ => environ "GITHUB_TOKEN"
  end.

(** How many sessions a list of events closes. *)
Definition closes (evs : list event) : nat := length (filter is_close evs).

(** The two files of a run. *)
Definition commits_csv (pi : string) : string :=
  "output/" ++ pi ++ "-authored-commits.csv".

Definition resolved_csv (pi : string) : string :=
  "output/" ++ pi ++ "-resolved-issues-prs.csv".

(** The error of [ThreadPoolExecutor] for a pool without worker. *)
Definition no_worker_error : exn :=
  mk_exn ValueError "max_workers must be greater than 0".

(** The [to_csv] calls among the events. *)
Definition csv_calls (evs : list event) : list event := filter is_to_csv evs.
(** * Properties *)

(** ** The monad *)

Lemma outcome_bind {A B} (m : M A) (f : A -> M B) :
  outcome (bind m f) =
  match outcome m with inl e => inl e | inr a => outcome (f a) end.
Proof.
  destruct m as [w [e | a]]; simpl; auto.
  destruct (f a); reflexivity.
Qed.

Lemma events_bind {A B} (m : M A) (f : A -> M B) :
  events (bind m f) =
  events m ++ match outcome m with inl _ => [] | inr a => events (f a) end.
Proof.
  destruct m as [w [e | a]]; simpl.
  - now rewrite app_nil_r.
  - destruct (f a); reflexivity.
Qed.

Lemma outcome_try_except {A} (body : M A) (handler : exn -> M A) :
  outcome (try_except_Exception body handler) =
  match outcome body with
  | inl e => if is_Exception e then outcome (handler e) else inl e
  | inr a => inr a
  end.
Proof.
  destruct body as [w [e | a]]; simpl; auto.
  destruct (is_Exception e); auto. destruct (handler e); reflexivity.
Qed.

Lemma events_try_except {A} (body : M A) (handler : exn -> M A) :
  events (try_except_Exception body handler) =
  events body ++
  match outcome body with
  | inl e => if is_Exception e then events (handler e) else []
  | inr _ => []
  end.
Proof.
  destruct body as [w [e | a]]; simpl; try now rewrite app_nil_r.
  destruct (is_Exception e); simpl; try now rewrite app_nil_r.
  destruct (handler e); reflexivity.
Qed.

Lemma outcome_try_finally_emit {A} (body : M A) (ev : event) :
  outcome (try_finally body (emit ev)) = outcome body.
Proof. now destruct body. Qed.

Lemma events_try_finally_emit {A} (body : M A) (ev : event) :
  events (try_finally body (emit ev)) = events body ++ [ev].
Proof. now destruct body. Qed.

Lemma outcome_with_pool {A} schedule (body : M A) :
  outcome (with_pool schedule body) = outcome body.
Proof. reflexivity. Qed.

Lemma events_with_pool {A} schedule (body : M A) :
  events (with_pool schedule body) = schedule (events body).
Proof. reflexivity. Qed.

(** ** The grouping loop *)

Lemma seen_inv_init : seen_inv [] no_groups.
Proof. intro n; reflexivity. Qed.

Lemma has_sole_iff n y : has_sole n y = true <-> snd y = [n].
Proof.
  unfold has_sole. destruct (snd y) as [| m [| m' t]]; split; intro H;
    try discriminate.
  - apply Z.eqb_eq in H. now subst.
  - injection H as ->. apply Z.eqb_refl.
Qed.

Lemma group_commit_spec pre st c ps :
  seen_inv pre st ->
  group_commit st c ps =
  mk_groups (prs st ++ (if first_sole pre (c, ps) then ps else []))
            (pr_commits st ++ (if first_sole pre (c, ps) then [c] else []))
            (standalone_commits st ++ (if standalone (c, ps) then [c] else [])).
Proof.
  intro Hinv. unfold group_commit, first_sole, standalone. simpl.
  destruct ps as [| n [| m t]]; simpl.
  - rewrite !app_nil_r. reflexivity.
  - rewrite (Hinv n). destruct (existsb (has_sole n) pre); simpl;
      rewrite ?app_nil_r; now destruct st.
  - rewrite !app_nil_r. now destruct st.
Qed.

Lemma seen_inv_step pre st c ps :
  seen_inv pre st -> seen_inv (pre ++ [(c, ps)]) (group_commit st c ps).
Proof.
  intros Hinv n. rewrite (group_commit_spec pre) by assumption. simpl.
  rewrite !existsb_app, Hinv. simpl. rewrite orb_false_r.
  destruct ps as [| m [| m' t]]; try (cbn; now rewrite ?orb_false_r).
  change (has_sole n (c, [m])) with (Z.eqb n m).
  change (first_sole pre (c, [m])) with (negb (existsb (has_sole m) pre)).
  destruct (existsb (has_sole m) pre) eqn:Hm; simpl; rewrite ?orb_false_r.
  - destruct (Z.eqb_spec n m) as [-> | Hne]; rewrite ?orb_false_r; auto.
    now rewrite Hm, orb_true_r.
  - reflexivity.
Qed.

Lemma classify_from_spec cs : forall pre st,
  seen_inv pre st ->
  classify_from st cs =
  mk_groups (prs st ++ flat_map snd (pos_filter first_sole pre cs))
            (pr_commits st ++ map fst (pos_filter first_sole pre cs))
            (standalone_commits st ++ map fst (filter standalone cs)).
Proof.
  induction cs as [| [c ps] cs IH]; intros pre st Hinv; simpl.
  - rewrite !app_nil_r. now destruct st.
  - unfold classify_from in *. simpl.
    rewrite (IH (pre ++ [(c, ps)])) by now apply seen_inv_step.
    rewrite (group_commit_spec pre) by assumption. simpl.
    rewrite flat_map_app, map_app, <- !app_assoc.
    destruct (first_sole pre (c, ps)), (standalone (c, ps)); simpl;
      rewrite ?app_nil_r; reflexivity.
Qed.

Lemma classify_spec cs :
  classify cs =
  mk_groups (flat_map snd (pos_filter first_sole [] cs))
            (map fst (pos_filter first_sole [] cs))
            (map fst (filter standalone cs)).
Proof. exact (classify_from_spec cs [] no_groups seen_inv_init). Qed.

(** The numbers of the kept pull-request commits are pairwise distinct. *)
Lemma first_sole_numbers_NoDup cs : forall pre,
  NoDup (flat_map snd (pos_filter first_sole pre cs)) /\
  (forall n, In n (flat_map snd (pos_filter first_sole pre cs)) ->
             existsb (has_sole n) pre = false).
Proof.
  induction cs as [| [c ps] cs IH]; intro pre; simpl.
  - split; [constructor | intros n []].
  - destruct (IH (pre ++ [(c, ps)])) as [Hnd Hfresh].
    assert (Hrest : forall n,
               In n (flat_map snd (pos_filter first_sole (pre ++ [(c, ps)]) cs)) ->
               existsb (has_sole n) pre = false /\ has_sole n (c, ps) = false).
    { intros n Hn. apply Hfresh in Hn. rewrite existsb_app in Hn. simpl in Hn.
      rewrite orb_false_r in Hn. now apply orb_false_iff in Hn. }
    destruct (first_sole pre (c, ps)) eqn:Hfs; simpl.
    + unfold first_sole in Hfs. simpl in Hfs.
      destruct ps as [| m [| m' t]]; try discriminate. simpl.
      apply negb_true_iff in Hfs. split.
      * constructor; auto. intro Hin. apply Hrest in Hin as [_ Hin].
        unfold has_sole in Hin. simpl in Hin. now rewrite Z.eqb_refl in Hin.
      * intros n [<- | Hn]; auto. now apply Hrest.
    + split; auto. intros n Hn. now apply Hrest.
Qed.

Lemma first_sole_iff pre x :
  first_sole pre x = true <->
  exists n, snd x = [n] /\ forall y, In y pre -> snd y <> [n].
Proof.
  unfold first_sole. destruct (snd x) as [| n [| m t]].
  - split; [discriminate | intros (n & H & _); discriminate].
  - rewrite negb_true_iff. split.
    + intro H. exists n. split; auto. intros y Hy Hs.
      apply has_sole_iff in Hs.
      assert (existsb (has_sole n) pre = true) by (apply existsb_exists; eauto).
      congruence.
    + intros (n' & Heq & H). injection Heq as <-.
      destruct (existsb (has_sole n) pre) eqn:E; auto.
      apply existsb_exists in E as (y & Hy & Hs). apply has_sole_iff in Hs.
      now elim (H y Hy).
  - split; [discriminate | intros (n' & H & _); discriminate].
Qed.

(** C1, as amended.  The grouping loop keeps a commit exactly when it is
    linked to no pull request (it goes to the standalone commits) or to
    exactly one pull request that no earlier commit of the sequence is
    linked to alone (it goes to the pull-request commits).  An earlier
    commit linked to several pull requests does not count.  The numbers
    recorded for the kept pull-request commits are those of their pull
    requests, and no two of them are equal. *)
Theorem classify_keeps_standalone_and_first_sole_pr :
  forall cs : list (Commit * list Z),
    let kept_prs := pos_filter first_sole [] cs in
    pr_commits (classify cs) = map fst kept_prs /\
    standalone_commits (classify cs) = map fst (filter standalone cs) /\
    (forall pre x, first_sole pre x = true <->
       exists n, snd x = [n] /\ forall y, In y pre -> snd y <> [n]) /\
    (forall x, standalone x = true <-> snd x = []) /\
    prs (classify cs) = flat_map snd kept_prs /\
    NoDup (flat_map snd kept_prs).
Proof.
  intro cs. cbv zeta. rewrite classify_spec. simpl.
  repeat split; try reflexivity.
  - now apply first_sole_iff.
  - now apply first_sole_iff.
  - unfold standalone. now destruct (snd x).
  - unfold standalone. intros ->. reflexivity.
  - apply (first_sole_numbers_NoDup cs []).
Qed.

(** The scenario of the specification: of [a] and [b] on pull request
    101, [c] without pull request and [d] on two, [a] and [c] are kept. *)
Example classify_scenario :
  map sha (kept (classify scenario_commits)) = ["a"; "c"].
Proof. reflexivity. Qed.

(** C1, as stated, fails.  After commit [d], linked to pull requests 55
    and 56, commit [e], linked to 55 alone, is kept, although 55 has
    occurred on an earlier commit. *)
Lemma classify_keeps_pr_of_earlier_ambiguous_commit :
  ~ (forall cs : list (Commit * list Z),
       pr_commits (classify cs) = map fst (pos_filter unseen_anywhere [] cs)).
Proof.
  intro H. specialize (H ambiguous_then_sole). discriminate H.
Qed.

(** ** The commit fetch task when the requests succeed *)

Lemma group_loop_ok commits : forall st,
  (forall c, In c commits -> exists ps, get_pulls c = inr ps) ->
  for_each (fun st commit =>
              emit (CallGetPulls (sha commit)) ;;;
              pulls <- lift (get_pulls commit) ;;
              ret (group_commit st commit pulls))
           commits st
  = (map (fun c => CallGetPulls (sha c)) commits,
     inr (classify_from st (map with_pulls commits))).
Proof.
  induction commits as [| c commits IH]; intros st Hok; simpl.
  - reflexivity.
  - destruct (Hok c (or_introl eq_refl)) as [ps Hps].
    unfold with_pulls at 1, pulls_of at 1. rewrite Hps. simpl.
    rewrite IH by (intros; apply Hok; now right). reflexivity.
Qed.

Lemma details_loop_ok owner repo l : forall acc,
  (forall c, In c l -> exists s, stats c = inr s) ->
  for_each (fun results commit =>
              r <- commit_details owner repo commit ;;
              ret (results ++ [r]))
           l acc
  = ([], inr (acc ++ map (fun c => commit_record owner repo c (stats_of c)) l)).
Proof.
  induction l as [| c l IH]; intros acc Hok; simpl.
  - now rewrite app_nil_r.
  - destruct (Hok c (or_introl eq_refl)) as [s Hs].
    unfold commit_details, stats_of at 1. rewrite Hs. simpl.
    rewrite IH by (intros; apply Hok; now right). simpl.
    now rewrite <- app_assoc.
Qed.

Lemma kept_classify cs :
  kept (classify cs) =
  map fst (pos_filter first_sole [] cs) ++ map fst (filter standalone cs).
Proof. now rewrite classify_spec. Qed.

Lemma pos_filter_incl {A} (p : list A -> A -> bool) l : forall pre x,
  In x (pos_filter p pre l) -> In x l.
Proof.
  induction l as [| a l IH]; intros pre x; simpl; auto.
  rewrite in_app_iff. intros [H | H].
  - destruct (p pre a); [destruct H as [-> | []]; now left | destruct H].
  - right. eapply IH, H.
Qed.

Lemma kept_incl cs c : In c (kept (classify cs)) -> In c (map fst cs).
Proof.
  rewrite kept_classify, in_app_iff, !in_map_iff.
  intros [(x & <- & Hx) | (x & <- & Hx)]; exists x; split; auto.
  - eapply pos_filter_incl, Hx.
  - now apply filter_In in Hx.
Qed.

Lemma get_commits_body_ok g owner repo author start_date end_date repository commits :
  get_repo g (owner ++ "/" ++ repo) = inr repository ->
  get_commits repository author start_date end_date = inr commits ->
  (forall c, In c commits -> exists ps, get_pulls c = inr ps) ->
  (forall c, In c commits -> exists s, stats c = inr s) ->
  outcome (get_commits_body g owner repo author start_date end_date) =
  inr (map (fun c => commit_record owner repo c (stats_of c))
           (kept (classify (map with_pulls commits)))).
Proof.
  intros Hrepo Hcommits Hpulls Hstats. unfold get_commits_body.
  rewrite Hrepo. simpl. rewrite Hcommits. simpl.
  rewrite group_loop_ok by assumption. simpl.
  fold (classify (map with_pulls commits)).
  fold (kept (classify (map with_pulls commits))).
  rewrite details_loop_ok.
  - reflexivity.
  - intros c Hc. apply Hstats. apply kept_incl in Hc.
    rewrite map_map in Hc. simpl in Hc. now rewrite map_id in Hc.
Qed.

(** C8.  When the requests of a commit fetch task succeed, its rows are
    those of the kept pull-request commits, in the order they were met
    in the listing, followed by those of the kept standalone commits,
    in the order they were met. *)
Theorem commit_rows_prs_then_standalone
    g owner repo author start_date end_date repository commits
    (Hrepo : get_repo g (owner ++ "/" ++ repo) = inr repository)
    (Hcommits : get_commits repository author start_date end_date = inr commits)
    (Hpulls : forall c, In c commits -> exists ps, get_pulls c = inr ps)
    (Hstats : forall c, In c commits -> exists s, stats c = inr s) :
  let cs := map with_pulls commits in
  outcome (get_commits_for_repo_author g owner repo author start_date end_date) =
  inr (map (fun c => commit_record owner repo c (stats_of c))
           (map fst (pos_filter first_sole [] cs) ++ map fst (filter standalone cs))).
Proof.
  intro cs. unfold get_commits_for_repo_author.
  rewrite outcome_try_except.
  rewrite (get_commits_body_ok _ _ _ _ _ _ _ _ Hrepo Hcommits Hpulls Hstats).
  now rewrite kept_classify.
Qed.

(** ** The task boundary *)

Lemma get_commits_caught g owner repo author start_date end_date err :
  outcome (get_commits_body g owner repo author start_date end_date) = inl err ->
  is_Exception err = true ->
  get_commits_for_repo_author g owner repo author start_date end_date =
  (events (get_commits_body g owner repo author start_date end_date)
     ++ [Print (commits_diagnostic owner repo author err)],
   inr []).
Proof.
  intros Hout Hexc. unfold get_commits_for_repo_author, try_except_Exception.
  destruct (get_commits_body g owner repo author start_date end_date) as [w r].
  simpl in *. subst r. rewrite Hexc. reflexivity.
Qed.

Lemma get_commits_escapes g owner repo author start_date end_date err :
  outcome (get_commits_for_repo_author g owner repo author start_date end_date) = inl err <->
  outcome (get_commits_body g owner repo author start_date end_date) = inl err /\
  is_Exception err = false.
Proof.
  unfold get_commits_for_repo_author. rewrite outcome_try_except.
  destruct (outcome (get_commits_body g owner repo author start_date end_date))
    as [e | rows].
  - destruct (is_Exception e) eqn:He; simpl.
    + split; [discriminate | intros [H1 H2]; congruence].
    + split; [intro H; split; congruence | tauto].
  - split; [discriminate | intros [H _]; discriminate].
Qed.

Section ResolvedProperties.

Variable isoformat : datetime -> string.

Lemma get_resolved_caught g tasks contributor start_date end_date err :
  outcome (get_resolved_body isoformat g tasks contributor start_date end_date) = inl err ->
  is_Exception err = true ->
  get_resolved_for_contributor isoformat g tasks contributor start_date end_date =
  (events (get_resolved_body isoformat g tasks contributor start_date end_date)
     ++ [Print (resolved_diagnostic contributor err)],
   inr []).
Proof.
  intros Hout Hexc. unfold get_resolved_for_contributor, try_except_Exception.
  destruct (get_resolved_body isoformat g tasks contributor start_date end_date) as [w r].
  simpl in *. subst r. rewrite Hexc. reflexivity.
Qed.

Lemma get_resolved_escapes g tasks contributor start_date end_date err :
  outcome (get_resolved_for_contributor isoformat g tasks contributor start_date end_date)
    = inl err ->
  is_Exception err = false.
Proof.
  unfold get_resolved_for_contributor. rewrite outcome_try_except.
  destruct (outcome (get_resolved_body isoformat g tasks contributor start_date end_date))
    as [e | rows]; [| discriminate].
  destruct (is_Exception e) eqn:He; simpl; [discriminate |].
  intro H. now injection H as <-.
Qed.

Lemma get_resolved_returned g tasks contributor start_date end_date rows :
  outcome (get_resolved_for_contributor isoformat g tasks contributor start_date end_date)
    = inr rows ->
  rows = [] \/
  outcome (get_resolved_body isoformat g tasks contributor start_date end_date) = inr rows.
Proof.
  unfold get_resolved_for_contributor. rewrite outcome_try_except.
  destruct (outcome (get_resolved_body isoformat g tasks contributor start_date end_date))
    as [e | rows'].
  - destruct (is_Exception e); simpl; [| discriminate].
    intro H. injection H as <-. now left.
  - intro H. injection H as <-. now right.
Qed.

(** ** The scope guard of the resolved-item task *)

Lemma task_eqb_eq a b : task_eqb a b = true <-> a = b.
Proof.
  destruct a as [[o1 r1] u1], b as [[o2 r2] u2]. simpl.
  rewrite !andb_true_iff, !String.eqb_eq. split.
  - intros [[-> ->] ->]. reflexivity.
  - intro H. injection H as -> -> ->. auto.
Qed.

Lemma in_tasks_In t tasks : in_tasks t tasks = true <-> In t tasks.
Proof.
  unfold in_tasks. rewrite existsb_exists. split.
  - intros (x & Hx & Heq). apply task_eqb_eq in Heq. now subst.
  - intro H. exists t. split; auto. now apply task_eqb_eq.
Qed.

Lemma resolve_loop_inv tasks contributor items : forall acc rows,
  outcome (for_each (resolve_item isoformat tasks contributor) items acc) = inr rows ->
  forall r, In r rows -> In r acc \/ row_from isoformat tasks contributor items r.
Proof.
  induction items as [| item items IH]; intros acc rows; simpl.
  - intro H. injection H as <-. auto.
  - rewrite outcome_bind. unfold resolve_item at 1.
    destruct (item_repository item) as [e | [o rp]] eqn:Hrepo; simpl; [discriminate |].
    destruct (in_tasks (o, rp, contributor) tasks) eqn:Hin; simpl.
    + intros H r Hr. destruct (IH _ _ H r Hr) as [Hacc | (it & Hit & H1 & H2 & H3)].
      * apply in_app_iff in Hacc as [Hacc | [<- | []]]; [now left |].
        right. exists item. simpl. split; [now left |].
        split; [assumption |]. split; [now apply in_tasks_In | reflexivity].
      * right. exists it. split; [now right | auto].
    + intros H r Hr. destruct (IH _ _ H r Hr) as [Hacc | (it & Hit & H1 & H2 & H3)].
      * now left.
      * right. exists it. split; [now right | auto].
Qed.

Lemma get_resolved_body_rows g tasks contributor start_date end_date rows :
  outcome (get_resolved_body isoformat g tasks contributor start_date end_date) = inr rows ->
  forall r, In r rows ->
    row_from isoformat tasks contributor
      (rows_of (search_issues g (issues_query tasks contributor start_date end_date)) ++
       rows_of (search_issues g (prs_query tasks contributor start_date end_date))) r.
Proof.
  unfold get_resolved_body. simpl.
  destruct (search_issues g (issues_query tasks contributor start_date end_date))
    as [e | issues]; simpl; [discriminate |].
  destruct (search_issues g (prs_query tasks contributor start_date end_date))
    as [e | prs]; simpl; [discriminate |].
  intros H r Hr.
  destruct (for_each (resolve_item isoformat tasks contributor) (issues ++ prs) [])
    as [w out] eqn:Hloop. simpl in H. subst out.
  assert (Hout : outcome (for_each (resolve_item isoformat tasks contributor)
                            (issues ++ prs) []) = inr rows) by now rewrite Hloop.
  destruct (resolve_loop_inv _ _ _ _ _ Hout r Hr) as [[] | H]. exact H.
Qed.

(** C3.  Every row the resolved-item task returns comes from a search
    result of one of its two queries whose triple (owner, repository,
    contributor) is in the task list, and carries that triple; a search
    result whose triple is not in the task list yields no row. *)
Theorem resolved_rows_within_tasks g tasks contributor start_date end_date rows
    (Hrows : outcome (get_resolved_for_contributor isoformat g tasks contributor
                        start_date end_date) = inr rows) :
  (forall r, In r rows ->
     In (rr_organization r, rr_repository r, rr_contributor r) tasks /\
     row_from isoformat tasks contributor
       (rows_of (search_issues g (issues_query tasks contributor start_date end_date)) ++
        rows_of (search_issues g (prs_query tasks contributor start_date end_date))) r) /\
  (forall item item_owner item_repo,
     item_repository item = inr (item_owner, item_repo) ->
     ~ In (item_owner, item_repo, contributor) tasks ->
     ~ In (resolved_details isoformat item item_owner item_repo contributor) rows).
Proof.
  assert (Hall : forall r, In r rows ->
     In (rr_organization r, rr_repository r, rr_contributor r) tasks /\
     row_from isoformat tasks contributor
       (rows_of (search_issues g (issues_query tasks contributor start_date end_date)) ++
        rows_of (search_issues g (prs_query tasks contributor start_date end_date))) r).
  { intros r Hr. apply get_resolved_returned in Hrows as [-> | Hbody]; [destruct Hr |].
    pose proof (get_resolved_body_rows _ _ _ _ _ _ Hbody r Hr) as Hfrom.
    split; auto. destruct Hfrom as (item & _ & _ & Hin & Heq).
    rewrite Heq at 3. exact Hin. }
  split; auto.
  intros item o rp _ Hout Hin. apply Hall in Hin as [Hin _]. now apply Hout.
Qed.

End ResolvedProperties.

(** ** Strings *)


Lemma append_assoc (a b c : string) : ((a ++ b) ++ c = a ++ b ++ c)%string.
Proof. induction a; simpl; congruence. Qed.





(** ** Dates *)












(** ** The queries of the resolved-item task *)

Section ResolvedQueries.

Variable isoformat : datetime -> string.

Lemma resolve_loop_events tasks contributor items : forall acc,
  events (for_each (resolve_item isoformat tasks contributor) items acc) = [].
Proof.
  induction items as [| item items IH]; intro acc; simpl; auto.
  rewrite events_bind. unfold resolve_item at 1 2.
  destruct (item_repository item) as [e | [o rp]]; simpl; auto.
  destruct (in_tasks (o, rp, contributor) tasks); simpl; apply IH.
Qed.

Lemma get_resolved_body_events g tasks contributor start_date end_date :
  events (get_resolved_body isoformat g tasks contributor start_date end_date) =
  [CallSearchIssues (issues_query tasks contributor start_date end_date);
   CallSearchIssues (prs_query tasks contributor start_date end_date)].
Proof.
  unfold get_resolved_body. simpl.
  destruct (search_issues g (issues_query tasks contributor start_date end_date))
    as [e | issues]; simpl; auto.
  destruct (search_issues g (prs_query tasks contributor start_date end_date))
    as [e | prs]; simpl; auto.
  pose proof (resolve_loop_events tasks contributor (issues ++ prs) []) as Hloop.
  destruct (for_each (resolve_item isoformat tasks contributor) (issues ++ prs) [])
    as [w r]. simpl in *. now subst w.
Qed.



End ResolvedQueries.

(** ** Deduplication *)

Arguments key_eqb : simpl never.
Arguments resolved_key : simpl never.

Lemma key_eqb_eq a b : key_eqb a b = true <-> a = b.
Proof.
  destruct a as [[n1 o1] r1], b as [[n2 o2] r2]. unfold key_eqb.
  rewrite !andb_true_iff, Z.eqb_eq, !String.eqb_eq. split.
  - intros [[-> ->] ->]. reflexivity.
  - intro H. injection H as -> -> ->. auto.
Qed.

Lemma seen_key_In k seen : existsb (key_eqb k) seen = true <-> In k seen.
Proof.
  rewrite existsb_exists. split.
  - intros (x & Hx & Heq). apply key_eqb_eq in Heq. now subst.
  - intro H. exists k. split; auto. now apply key_eqb_eq.
Qed.

Lemma seen_key_not_In k seen : existsb (key_eqb k) seen = false <-> ~ In k seen.
Proof.
  rewrite <- seen_key_In. destruct (existsb (key_eqb k) seen); split; congruence.
Qed.

Lemma drop_duplicates_from_spec rows : forall seen,
  let out := drop_duplicates_from seen rows in
  NoDup (map resolved_key out) /\
  (forall r', In r' out ->
     ~ In (resolved_key r') seen /\
     find (fun r => key_eqb (resolved_key r) (resolved_key r')) rows = Some r') /\
  (forall r, In r rows -> ~ In (resolved_key r) seen ->
     exists r', In r' out /\ resolved_key r' = resolved_key r).
Proof.
  induction rows as [| r rows IH]; intro seen; simpl.
  - split; [constructor |]. split; [intros r' [] | intros r []].
  - destruct (existsb (key_eqb (resolved_key r)) seen) eqn:Hseen.
    + destruct (IH seen) as (Hnd & Hfirst & Hcov). split; [exact Hnd |]. split.
      * intros r' Hr'. destruct (Hfirst r' Hr') as [Hfresh Hfind]. split; auto.
        apply seen_key_In in Hseen.
        destruct (key_eqb (resolved_key r) (resolved_key r')) eqn:E; auto.
        apply key_eqb_eq in E. rewrite E in Hseen. tauto.
      * intros r0 [<- | Hr0] Hfresh; [apply seen_key_In in Hseen; tauto |].
        now apply Hcov.
    + destruct (IH (seen ++ [resolved_key r])) as (Hnd & Hfirst & Hcov).
      apply seen_key_not_In in Hseen. simpl. split; [| split].
      * constructor; auto. intro Hin. apply in_map_iff in Hin as (r' & Hk & Hr').
        apply Hfirst in Hr' as [Hfresh _]. apply Hfresh.
        apply in_app_iff. right. left. auto.
      * intros r' [<- | Hr'].
        -- split; auto.
           now rewrite (proj2 (key_eqb_eq _ _) eq_refl).
        -- destruct (Hfirst r' Hr') as [Hfresh Hfind].
           rewrite in_app_iff in Hfresh. split; [tauto |].
           destruct (key_eqb (resolved_key r) (resolved_key r')) eqn:E; auto.
           apply key_eqb_eq in E. exfalso. apply Hfresh. right. left. auto.
      * intros r0 [<- | Hr0] Hfresh.
        -- exists r. split; auto.
        -- destruct (key_eqb (resolved_key r) (resolved_key r0)) eqn:E.
           ++ apply key_eqb_eq in E. exists r. split; auto.
           ++ destruct (Hcov r0 Hr0) as (r' & Hr' & Hk).
              { rewrite in_app_iff. intros [H | [H | []]]; [tauto |].
                rewrite H in E. now rewrite (proj2 (key_eqb_eq _ _) eq_refl) in E. }
              exists r'. split; auto.
Qed.

(** ** The run *)

Lemma first_error_None_all {A} (l : list (exn + A)) :
  first_error l = None <-> forall r, In r l -> exists a, r = inr a.
Proof.
  induction l as [| [e | a] l IH]; simpl.
  - split; [intros _ r [] | auto].
  - split; [discriminate |]. intro H. destruct (H (inl e)) as [a Ha]; auto. discriminate.
  - rewrite IH. split.
    + intros H r [<- | Hr]; eauto.
    + intros H r Hr. apply H. now right.
Qed.

Lemma first_error_Some_In {A} (l : list (exn + A)) e :
  first_error l = Some e -> In (inl e) l.
Proof.
  induction l as [| [e' | a] l IH]; simpl; [discriminate | |].
  - intro H. injection H as ->. now left.
  - intro H. right. now apply IH.
Qed.

Lemma run_futures_spec {A} (l : list (M A)) :
  run_futures l = (flat_map events l, inr (map outcome l)).
Proof.
  induction l as [| t l IH]; simpl; auto.
  rewrite IH. destruct t as [w r]. simpl. now rewrite app_nil_r.
Qed.

Lemma submit_loop {A} (f : A -> event) (l : list A) :
  for_each (fun _ x => emit (f x)) l tt = (map f l, inr tt).
Proof.
  induction l as [| x l IH]; simpl; auto. now rewrite IH.
Qed.

Lemma for_each_cons {A S} (body : S -> A -> M S) x l s :
  for_each body (x :: l) s = bind (body s x) (fun s' => for_each body l s').
Proof. reflexivity. Qed.

Lemma collect_inr {A} total (st : nat * list A) rows :
  collect total st (inr rows) =
  ([Print ("  Progress: " ++ str_of_nat (S (fst st)) ++ "/" ++ str_of_nat total)],
   inr (S (fst st), snd st ++ rows)).
Proof. reflexivity. Qed.

Lemma collect_inl {A} total (st : nat * list A) e :
  collect total st (inl e) =
  ([Print ("  Progress: " ++ str_of_nat (S (fst st)) ++ "/" ++ str_of_nat total)],
   inl e).
Proof. reflexivity. Qed.

Lemma collect_loop_outcome {A} total (done : list (exn + list A)) : forall n acc,
  outcome (for_each (collect total) done (n, acc)) =
  match first_error done with
  | Some e => inl e
  | None => inr (n + length done, acc ++ flat_map rows_of done)
  end.
Proof.
  induction done as [| [e | rows] done IH]; intros n acc.
  - simpl. now rewrite Nat.add_0_r, app_nil_r.
  - reflexivity.
  - rewrite for_each_cons, outcome_bind, collect_inr.
    cbn [outcome snd fst first_error]. rewrite IH.
    destruct (first_error done); auto.
    cbn [length flat_map rows_of]. now rewrite Nat.add_succ_r, <- app_assoc.
Qed.

Lemma collect_loop_trace {A} total (done : list (exn + list A)) : forall n acc,
  events (for_each (collect total) done (n, acc)) =
  map (fun k => Print (progress_line total k)) (seq (S n) (collected done)).
Proof.
  induction done as [| [e | rows] done IH]; intros n acc.
  - reflexivity.
  - reflexivity.
  - rewrite for_each_cons, events_bind, collect_inr.
    cbn [events outcome fst snd collected seq map app]. now rewrite IH.
Qed.

(** Properties of all the events of a computation, by its structure. *)

Lemma Forall_events_bind {A B} (P : event -> Prop) (m : M A) (f : A -> M B) :
  Forall P (events m) -> (forall a, Forall P (events (f a))) ->
  Forall P (events (bind m f)).
Proof.
  intros Hm Hf. rewrite events_bind. apply Forall_app. split; auto.
  destruct (outcome m); auto.
Qed.

Lemma Forall_events_for_each {A S} (P : event -> Prop) (body : S -> A -> M S) l :
  (forall s x, Forall P (events (body s x))) ->
  forall s, Forall P (events (for_each body l s)).
Proof.
  intro Hbody. induction l as [| x l IH]; intro s.
  - constructor.
  - rewrite for_each_cons. apply Forall_events_bind; auto.
Qed.

Lemma Forall_events_try_except {A} (P : event -> Prop) (body : M A) handler :
  Forall P (events body) -> (forall e, Forall P (events (handler e))) ->
  Forall P (events (try_except_Exception body handler)).
Proof.
  intros Hb Hh. rewrite events_try_except. apply Forall_app. split; auto.
  destruct (outcome body) as [e | a]; auto. destruct (is_Exception e); auto.
Qed.

Lemma Forall_events_emit (P : event -> Prop) ev : P ev -> Forall P (events (emit ev)).
Proof. intro H. repeat constructor. exact H. Qed.

Lemma Forall_events_nil {A} (P : event -> Prop) (m : M A) :
  events m = [] -> Forall P (events m).
Proof. intros ->. constructor. Qed.

Ltac walk_events :=
  repeat first
    [ apply Forall_events_bind; [| intros]
    | apply Forall_events_try_except; [| intros]
    | apply Forall_events_for_each; intros
    | apply Forall_events_emit
    | apply Forall_events_nil; reflexivity
    | rewrite events_try_finally_emit; apply Forall_app; split;
      [| repeat constructor] ].

Lemma commit_task_events remote token time_start time_end task :
  Forall (fun ev => is_resolved_activity ev = false)
         (events (process_commits_task remote token time_start time_end task)).
Proof.
  destruct task as [[owner repo] username].
  unfold process_commits_task, get_commits_for_repo_author, get_commits_body,
    commit_details, print.
  walk_events; reflexivity.
Qed.

Section MainProperties.

Variable isoformat : datetime -> string.
Variable remote : option string -> Github.
Variable config : Config.
Variable strptime_Ymd : string -> exn + datetime.
Variable to_csv : forall A : Type, list A -> string -> exn + unit.
Variable as_completed : forall A : Type, list A -> list A.
Hypothesis as_completed_perm : forall A (l : list A), Permutation l (as_completed A l).
Variable schedule : list event -> list event.
Hypothesis schedule_perm : forall evs, Permutation evs (schedule evs).
Hypothesis schedule_main : forall evs, main_thread (schedule evs) = main_thread evs.

Lemma pool_block_outcome token time_start time_end tasks contributors :
  outcome (pool_block isoformat remote as_completed token time_start time_end
             tasks contributors) =
  match first_error (done_commits remote as_completed token time_start time_end tasks) with
  | Some e => inl e
  | None =>
      match first_error (done_resolved isoformat remote as_completed token
                           time_start time_end tasks contributors) with
      | Some e => inl e
      | None =>
          inr (flat_map rows_of
                 (done_commits remote as_completed token time_start time_end tasks),
               flat_map rows_of
                 (done_resolved isoformat remote as_completed token
                    time_start time_end tasks contributors))
      end
  end.
Proof.
  unfold pool_block.
  rewrite outcome_bind, submit_loop. cbn [outcome snd].
  rewrite outcome_bind, submit_loop. cbn [outcome snd].
  rewrite outcome_bind, run_futures_spec. cbn [outcome snd].
  rewrite outcome_bind, run_futures_spec. cbn [outcome snd].
  fold (done_commits remote as_completed token time_start time_end tasks).
  fold (done_resolved isoformat remote as_completed token time_start time_end
          tasks contributors).
  rewrite outcome_bind, collect_loop_outcome.
  destruct (first_error (done_commits remote as_completed token time_start time_end tasks));
    [reflexivity |].
  rewrite outcome_bind. cbn [fst snd]. rewrite collect_loop_outcome.
  destruct (first_error (done_resolved isoformat remote as_completed token
                           time_start time_end tasks contributors));
    reflexivity.
Qed.

(** The events of the block, thread after thread. *)
Lemma pool_block_events token time_start time_end tasks contributors :
  let total := length tasks + length contributors in
  let dc := done_commits remote as_completed token time_start time_end tasks in
  let dr := done_resolved isoformat remote as_completed token time_start time_end
              tasks contributors in
  events (pool_block isoformat remote as_completed token time_start time_end
            tasks contributors) =
  map SubmitCommits tasks
  ++ map (fun c => SubmitResolved (snd c)) contributors
  ++ flat_map events
       (as_completed _ (map (process_commits_task remote token time_start time_end) tasks))
  ++ flat_map events
       (as_completed _
          (map (fun c => process_resolved_task isoformat remote token tasks
                           time_start time_end (snd c)) contributors))
  ++ map (fun k => Print (progress_line total k)) (seq 1 (collected dc))
  ++ match first_error dc with
     | Some _ => []
     | None =>
         map (fun k => Print (progress_line total k)) (seq (S (length dc)) (collected dr))
     end.
Proof.
  intros total dc dr. unfold pool_block.
  rewrite events_bind, submit_loop. cbn [events outcome fst snd].
  rewrite events_bind, submit_loop. cbn [events outcome fst snd].
  rewrite events_bind, run_futures_spec. cbn [events outcome fst snd].
  rewrite events_bind, run_futures_spec. cbn [events outcome fst snd].
  fold (done_commits remote as_completed token time_start time_end tasks).
  fold (done_resolved isoformat remote as_completed token time_start time_end
          tasks contributors).
  fold total dc dr.
  rewrite events_bind, collect_loop_trace, collect_loop_outcome.
  do 5 f_equal.
  destruct (first_error dc); [reflexivity |].
  rewrite events_bind. cbn [fst snd]. rewrite collect_loop_trace, collect_loop_outcome.
  cbn [Nat.add].
  destruct (first_error dr); cbn [events ret outcome fst snd]; now rewrite app_nil_r.
Qed.

Lemma main_outcome token pi max_workers time_range time_start time_end :
  let pi' := resolve_pi config pi in
  let tasks := get_repos_x_contributors_for_pi config pi' in
  let contributors := get_contributors_for_pi config pi' in
  get_time_range config pi' = Some time_range ->
  strptime_Ymd (fst time_range) = inr time_start ->
  strptime_Ymd (snd time_range) = inr time_end ->
  tasks <> [] ->
  outcome (main isoformat remote config strptime_Ymd to_csv as_completed schedule
             token pi max_workers) =
  if Nat.eqb max_workers 0 then inl no_worker_error else
  match first_error (done_commits remote as_completed token time_start time_end tasks) with
  | Some e => inl e
  | None =>
      match first_error (done_resolved isoformat remote as_completed token
                           time_start time_end tasks contributors) with
      | Some e => inl e
      | None =>
          let df := commits_table remote as_completed token time_start time_end tasks in
          let df_resolved :=
            resolved_table isoformat remote as_completed token time_start time_end
              tasks contributors in
          match to_csv _ df (commits_csv pi') with
          | inl e => inl e
          | inr _ =>
              match to_csv _ df_resolved (resolved_csv pi') with
              | inl e => inl e
              | inr _ => inr (df, df_resolved)
              end
          end
      end
  end.
Proof.
  intros pi' tasks contributors Hrange Hstart Hend Htasks.
  unfold main. fold pi'. rewrite Hrange.
  rewrite outcome_bind. cbn [outcome lift snd]. rewrite Hstart.
  rewrite outcome_bind. cbn [outcome lift snd]. rewrite Hend.
  fold tasks contributors.
  rewrite outcome_bind. cbn [outcome print emit snd].
  rewrite outcome_bind. cbn [outcome print emit snd].
  assert (Hlt : Nat.ltb (length tasks) 1 = false).
  { destruct tasks; [congruence | reflexivity]. }
  rewrite Hlt.
  rewrite outcome_bind. cbn [outcome print emit snd].
  rewrite outcome_bind.
  destruct (Nat.eqb max_workers 0); [reflexivity |]. cbn [outcome ret snd].
  rewrite outcome_bind, outcome_with_pool, pool_block_outcome.
  destruct (first_error (done_commits remote as_completed token time_start time_end tasks));
    [reflexivity |].
  destruct (first_error (done_resolved isoformat remote as_completed token
                           time_start time_end tasks contributors));
    [reflexivity |].
  cbn [fst snd].
  do 3 (rewrite outcome_bind; cbn [outcome print emit snd]).
  rewrite outcome_bind. cbn [outcome lift snd].
  cbv zeta. unfold commits_table, resolved_table.
  change (to_csv _ ?df _) with (to_csv _ df (commits_csv pi')) at 1.
  destruct (to_csv _ _ (commits_csv pi')); [reflexivity |].
  do 2 (rewrite outcome_bind; cbn [outcome print emit snd]).
  rewrite outcome_bind. cbn [outcome lift snd].
  change (to_csv _ ?df _) with (to_csv _ df (resolved_csv pi')) at 1.
  destruct (to_csv _ _ (resolved_csv pi')); reflexivity.
Qed.

Lemma as_completed_map {A B} (f : A -> B) (l : list A) :
  exists order, Permutation l order /\ as_completed B (map f l) = map f order.
Proof.
  destruct (Permutation_map_inv f l (Permutation_sym (as_completed_perm B (map f l))))
    as (order & Heq & Hperm).
  exists order. split; auto.
Qed.

Lemma as_completed_nil {A} : as_completed A [] = [].
Proof. apply Permutation_nil, as_completed_perm. Qed.

Lemma done_commits_order token time_start time_end tasks :
  exists order,
    Permutation tasks order /\
    done_commits remote as_completed token time_start time_end tasks =
    map (fun t => outcome (process_commits_task remote token time_start time_end t)) order.
Proof.
  unfold done_commits.
  destruct (as_completed_map (process_commits_task remote token time_start time_end) tasks)
    as (order & Hperm & ->).
  exists order. split; auto. now rewrite map_map.
Qed.

Lemma done_resolved_order token time_start time_end tasks contributors :
  exists order,
    Permutation contributors order /\
    done_resolved isoformat remote as_completed token time_start time_end tasks contributors =
    map (fun c => outcome (process_resolved_task isoformat remote token tasks
                             time_start time_end (snd c))) order.
Proof.
  unfold done_resolved.
  destruct (as_completed_map
              (fun c => process_resolved_task isoformat remote token tasks
                          time_start time_end (snd c)) contributors)
    as (order & Hperm & ->).
  exists order. split; auto. now rewrite map_map.
Qed.

Lemma main_events token pi max_workers time_range time_start time_end :
  let pi' := resolve_pi config pi in
  let tasks := get_repos_x_contributors_for_pi config pi' in
  let contributors := get_contributors_for_pi config pi' in
  get_time_range config pi' = Some time_range ->
  strptime_Ymd (fst time_range) = inr time_start ->
  strptime_Ymd (snd time_range) = inr time_end ->
  tasks <> [] ->
  0 < max_workers ->
  exists l1 l2 l3 tail,
    events (main isoformat remote config strptime_Ymd to_csv as_completed schedule
              token pi max_workers) =
    [Print l1; Print l2; Print l3]
    ++ schedule (events (pool_block isoformat remote as_completed token
                           time_start time_end tasks contributors))
    ++ tail /\
    Forall (fun ev => is_fetch_activity ev = false) tail.
Proof.
  intros pi' tasks contributors Hrange Hstart Hend Htasks Hworkers.
  unfold main. fold pi'. rewrite Hrange.
  rewrite events_bind. cbn [events outcome lift fst snd app]. rewrite Hstart.
  rewrite events_bind. cbn [events outcome lift fst snd app]. rewrite Hend.
  fold tasks contributors.
  rewrite events_bind. cbn [events outcome print emit fst snd app].
  rewrite events_bind. cbn [events outcome print emit fst snd app].
  assert (Hlt : Nat.ltb (length tasks) 1 = false).
  { destruct tasks; [congruence | reflexivity]. }
  rewrite Hlt.
  rewrite events_bind. cbn [events outcome print emit fst snd app].
  rewrite events_bind.
  assert (Hpool : Nat.eqb max_workers 0 = false) by (apply Nat.eqb_neq; lia).
  rewrite Hpool. cbn [events outcome ret fst snd app].
  rewrite events_bind, events_with_pool, outcome_with_pool.
  do 3 eexists. eexists. split; [reflexivity |].
  destruct (outcome (pool_block _ _ _ _ _ _ _ _)) as [e | collected]; [constructor |].
  unfold print. walk_events; reflexivity.
Qed.

Lemma process_commits_outcome token time_start time_end task :
  outcome (process_commits_task remote token time_start time_end task) =
  match outcome (commit_task_body remote token time_start time_end task) with
  | inr rows => inr rows
  | inl e => if is_Exception e then inr [] else inl e
  end.
Proof.
  destruct task as [[owner repo] username].
  unfold process_commits_task, commit_task_body, get_commits_for_repo_author.
  rewrite outcome_try_finally_emit, outcome_try_except.
  now destruct (outcome (get_commits_body _ _ _ _ _ _)).
Qed.

Lemma process_resolved_outcome token tasks time_start time_end c :
  outcome (process_resolved_task isoformat remote token tasks time_start time_end (snd c)) =
  match outcome (resolved_task_body isoformat remote token tasks time_start time_end c) with
  | inr rows => inr rows
  | inl e => if is_Exception e then inr [] else inl e
  end.
Proof.
  unfold process_resolved_task, resolved_task_body, get_resolved_for_contributor.
  rewrite outcome_try_finally_emit, outcome_try_except.
  now destruct (outcome (get_resolved_body _ _ _ _ _ _)).
Qed.

Lemma main_without_tasks token pi max_workers :
  get_repos_x_contributors_for_pi config (resolve_pi config pi) = [] ->
  (exists e, outcome (main isoformat remote config strptime_Ymd to_csv as_completed schedule
                        token pi max_workers) = inl e) /\
  Forall (fun ev => is_fetch_activity ev = false)
         (events (main isoformat remote config strptime_Ymd to_csv as_completed schedule
                    token pi max_workers)) /\
  (forall time_range time_start time_end,
     get_time_range config (resolve_pi config pi) = Some time_range ->
     strptime_Ymd (fst time_range) = inr time_start ->
     strptime_Ymd (snd time_range) = inr time_end ->
     outcome (main isoformat remote config strptime_Ymd to_csv as_completed schedule
                token pi max_workers)
     = inl (mk_exn ValueError "No repos x contributors found in config.")).
Proof.
  intro Htasks. unfold main. rewrite Htasks.
  destruct (get_time_range config (resolve_pi config pi)) as [tr |].
  - destruct (strptime_Ymd (fst tr)) as [e1 | ts] eqn:E1; cbn.
    + repeat split; eauto. intros ? ? ? H; injection H as <-; congruence.
    + destruct (strptime_Ymd (snd tr)) as [e2 | te] eqn:E2; cbn.
      * repeat split; eauto. intros ? ? ? H; injection H as <-; congruence.
      * repeat split; eauto.
  - cbn. repeat split; eauto. intros ? ? ? H; discriminate.
Qed.

Lemma first_error_of_In {A} (l : list (exn + A)) e :
  In (inl e) l -> exists e', first_error l = Some e'.
Proof.
  induction l as [| [e' | a] l IH]; simpl; [intros [] | eauto |].
  intros [H | H]; [discriminate | auto].
Qed.

Lemma flat_map_filter_nil {A B} (f : A -> list B) (p : A -> bool) l :
  (forall x, In x l -> p x = false -> f x = []) ->
  flat_map f l = flat_map f (filter p l).
Proof.
  induction l as [| x l IH]; intro H; simpl; auto.
  rewrite IH by (intros; apply H; auto; now right).
  destruct (p x) eqn:E; simpl; auto.
  now rewrite (H x (or_introl eq_refl) E).
Qed.

Lemma flat_map_map {A B C} (f : B -> list C) (g : A -> B) l :
  flat_map f (map g l) = flat_map (fun x => f (g x)) l.
Proof. induction l as [| x l IH]; simpl; congruence. Qed.

Lemma count_occ_flat_map_ge {A B} (Adec : forall a b : A, {a = b} + {a <> b})
    (Bdec : forall a b : B, {a = b} + {a <> b}) (f : A -> list B) l t r :
  count_occ Adec l t * count_occ Bdec (f t) r <= count_occ Bdec (flat_map f l) r.
Proof.
  induction l as [| a l IH]; simpl; [lia |].
  rewrite count_occ_app. destruct (Adec a t) as [-> | _]; simpl; lia.
Qed.

Local Abbreviation run := (main isoformat remote config strptime_Ymd to_csv as_completed schedule).
Local Abbreviation commits_task := (process_commits_task remote).
Local Abbreviation resolved_task := (process_resolved_task isoformat remote).

(** C6.  When the date range of the PI is unknown, or the configuration
    yields no task triple, [main] raises, and nothing but printing has
    happened by then: no task was handed to the pool and no call was
    made on a GitHub client.  The error is the [ValueError] of the
    missing date range, respectively, once the dates are read, the
    [ValueError] of the empty task list. *)
Theorem main_fails_fast token pi max_workers
    (Hconfig : get_time_range config (resolve_pi config pi) = None \/
               get_repos_x_contributors_for_pi config (resolve_pi config pi) = []) :
  (exists e, outcome (run token pi max_workers) = inl e) /\
  Forall (fun ev => is_fetch_activity ev = false) (events (run token pi max_workers)) /\
  (get_time_range config (resolve_pi config pi) = None ->
   run token pi max_workers =
   ([], inl (mk_exn ValueError
               ("No date range found for PI: " ++ resolve_pi config pi)))) /\
  (get_repos_x_contributors_for_pi config (resolve_pi config pi) = [] ->
   forall time_range time_start time_end,
     get_time_range config (resolve_pi config pi) = Some time_range ->
     strptime_Ymd (fst time_range) = inr time_start ->
     strptime_Ymd (snd time_range) = inr time_end ->
     outcome (run token pi max_workers)
     = inl (mk_exn ValueError "No repos x contributors found in config.")).
Proof.
  assert (Hnone : get_time_range config (resolve_pi config pi) = None ->
                  run token pi max_workers =
                  ([], inl (mk_exn ValueError
                              ("No date range found for PI: " ++ resolve_pi config pi)))).
  { intro H. unfold main. now rewrite H. }
  split; [| split; [| split]]; auto.
  - destruct Hconfig as [H | H].
    + rewrite (Hnone H). simpl. eauto.
    + now apply main_without_tasks.
  - destruct Hconfig as [H | H].
    + rewrite (Hnone H). constructor.
    + now apply main_without_tasks.
  - intro H. now apply main_without_tasks.
Qed.

Lemma not_fetch_not_resolved ev :
  is_fetch_activity ev = false -> is_resolved_activity ev = false.
Proof. now destruct ev. Qed.

(** C10.  With a known date range, at least one task triple, at least
    one worker and no contributor, [main] passes its checks and hands
    every commit task to the pool; no resolved-item task is handed to
    the pool and no search is made; an exception that ends the run is
    one a commit task raised or one of writing a file, never one of the
    configuration; the resolved-items table of a run that returns is
    empty; and when the commit tasks return and the two files, the
    second with no row, can be written, the run returns. *)
Theorem main_runs_without_contributors token pi max_workers
    time_range time_start time_end
    (Hrange : get_time_range config (resolve_pi config pi) = Some time_range)
    (Hstart : strptime_Ymd (fst time_range) = inr time_start)
    (Hend : strptime_Ymd (snd time_range) = inr time_end)
    (Htasks : get_repos_x_contributors_for_pi config (resolve_pi config pi) <> [])
    (Hnobody : get_contributors_for_pi config (resolve_pi config pi) = [])
    (Hworkers : 0 < max_workers) :
  let tasks := get_repos_x_contributors_for_pi config (resolve_pi config pi) in
  let df := commits_table remote as_completed token time_start time_end tasks in
  let written := to_csv _ df (commits_csv (resolve_pi config pi)) in
  let written_resolved :=
    to_csv ResolvedItemRecord [] (resolved_csv (resolve_pi config pi)) in
  (forall t, In t tasks -> In (SubmitCommits t) (events (run token pi max_workers))) /\
  Forall (fun ev => is_resolved_activity ev = false) (events (run token pi max_workers)) /\
  (forall e, outcome (run token pi max_workers) = inl e ->
     (exists t, In t tasks /\
                outcome (commits_task token time_start time_end t) = inl e) \/
     written = inl e \/
     written_resolved = inl e) /\
  (forall df' dfr, outcome (run token pi max_workers) = inr (df', dfr) -> dfr = []) /\
  ((forall t, In t tasks ->
      exists rows, outcome (commits_task token time_start time_end t) = inr rows) ->
   written = inr tt ->
   written_resolved = inr tt ->
   outcome (run token pi max_workers) = inr (df, [])).
Proof.
  intros tasks df written written_resolved.
  pose proof (main_outcome token pi max_workers _ _ _ Hrange Hstart Hend Htasks) as Hout.
  destruct (main_events token pi max_workers _ _ _ Hrange Hstart Hend Htasks Hworkers)
    as (l1 & l2 & l3 & tail & Hev & Htail).
  rewrite pool_block_events in Hev.
  cbv zeta in Hout, Hev. rewrite Hnobody in Hout, Hev. fold tasks in Hout, Hev.
  unfold resolved_table, done_resolved in Hout, Hev. simpl map in Hout, Hev.
  rewrite as_completed_nil in Hout, Hev.
  change (first_error (map outcome [])) with (@None exn) in Hout.
  cbn [map flat_map] in Hout.
  change (drop_duplicates []) with (@nil ResolvedItemRecord) in Hout.
  fold df in Hout. fold written written_resolved in Hout.
  assert (Hpool : Nat.eqb max_workers 0 = false) by (apply Nat.eqb_neq; lia).
  rewrite Hpool in Hout.
  destruct (done_commits_order token time_start time_end tasks) as (order & Hperm & Hdone).
  split; [| split; [| split; [| split]]].
  - intros t Ht. rewrite Hev. apply in_app_iff. right.
    apply in_app_iff. left. eapply Permutation_in; [apply schedule_perm |].
    apply in_app_iff. left. now apply in_map.
  - rewrite Hev. apply Forall_app. split; [repeat constructor |].
    apply Forall_app. split.
    + eapply Permutation_Forall; [apply schedule_perm |].
      repeat (apply Forall_app; split); try (repeat constructor; fail).
      * apply Forall_forall. intros ev Hin. apply in_map_iff in Hin as (t & <- & _).
        reflexivity.
      * apply Forall_forall. intros ev Hin.
        apply in_flat_map in Hin as (m & Hm & Hin).
        apply (Permutation_in _ (Permutation_sym (as_completed_perm _ _))) in Hm.
        apply in_map_iff in Hm as (t & <- & _).
        pose proof (commit_task_events remote token time_start time_end t) as Hall.
        rewrite Forall_forall in Hall. now apply Hall.
      * apply Forall_forall. intros ev Hin. apply in_map_iff in Hin as (k & <- & _).
        reflexivity.
      * destruct (first_error _); [constructor |].
        apply Forall_forall. intros ev Hin. apply in_map_iff in Hin as (k & <- & _).
        reflexivity.
    + eapply Forall_impl; [| exact Htail]. apply not_fetch_not_resolved.
  - intros e He. rewrite Hout in He.
    destruct (first_error (done_commits remote as_completed token time_start time_end tasks))
      as [e' |] eqn:Hfirst.
    + injection He as ->. left. apply first_error_Some_In in Hfirst.
      rewrite Hdone in Hfirst. apply in_map_iff in Hfirst as (t & Ht & Hin).
      exists t. split; auto.
      eapply Permutation_in; [apply Permutation_sym, Hperm | exact Hin].
    + destruct written as [e1 | u1]; [injection He as ->; auto |].
      destruct written_resolved as [e2 | u2]; [injection He as ->; auto | discriminate].
  - intros df' dfr Hrun. rewrite Hout in Hrun.
    destruct (first_error (done_commits remote as_completed token time_start time_end tasks));
      [discriminate |].
    destruct written; [discriminate |].
    destruct written_resolved; [discriminate |].
    now injection Hrun as _ <-.
  - intros Hok Hcsv1 Hcsv2. rewrite Hout.
    assert (Hfirst : first_error (done_commits remote as_completed token time_start
                                    time_end tasks) = None).
    { apply first_error_None_all. intros r Hr. rewrite Hdone in Hr.
      apply in_map_iff in Hr as (t & <- & Ht). apply Hok.
      eapply Permutation_in; [apply Permutation_sym, Hperm | exact Ht]. }
    rewrite Hfirst, Hcsv1, Hcsv2. reflexivity.
Qed.

(** C9.  The commit table of a run that returns is the rows of the
    commit tasks put end to end, in the order their futures completed,
    every task of the list once and nothing removed; so a row of the
    task of a triple is in the table at least as many times as the
    triple is in the task list. *)
Theorem commit_table_is_concatenation token pi max_workers
    time_range time_start time_end df dfr
    (Hrange : get_time_range config (resolve_pi config pi) = Some time_range)
    (Hstart : strptime_Ymd (fst time_range) = inr time_start)
    (Hend : strptime_Ymd (snd time_range) = inr time_end)
    (Hrun : outcome (run token pi max_workers) = inr (df, dfr)) :
  let tasks := get_repos_x_contributors_for_pi config (resolve_pi config pi) in
  let rows t := rows_of (outcome (commits_task token time_start time_end t)) in
  exists order,
    Permutation tasks order /\
    df = flat_map rows order /\
    forall t r,
      count_occ Task_eq_dec tasks t * count_occ CommitRecord_eq_dec (rows t) r
      <= count_occ CommitRecord_eq_dec df r.
Proof.
  intros tasks rows.
  assert (Htasks : tasks <> []).
  { intro H. destruct (main_without_tasks token pi max_workers H) as [[e He] _].
    congruence. }
  rewrite (main_outcome token pi max_workers _ _ _ Hrange Hstart Hend Htasks) in Hrun.
  fold tasks in Hrun.
  destruct (Nat.eqb max_workers 0); [discriminate |].
  destruct (first_error (done_commits remote as_completed token time_start time_end tasks));
    [discriminate |].
  destruct (first_error (done_resolved isoformat remote as_completed token time_start
                           time_end tasks _)); [discriminate |].
  cbv zeta in Hrun.
  destruct (to_csv _ _ (commits_csv _)); [discriminate |].
  destruct (to_csv _ _ (resolved_csv _)); [discriminate |].
  injection Hrun as <- _. unfold commits_table.
  destruct (done_commits_order token time_start time_end tasks) as (order & Hperm & ->).
  exists order. rewrite flat_map_map. repeat split; auto.
  intros t r. rewrite (Permutation_count_occ Task_eq_dec tasks order) in Hperm.
  rewrite Hperm. apply count_occ_flat_map_ge.
Qed.

(** C2.  Whatever sequences of rows the resolved-item tasks returned,
    after [drop_duplicates] on their concatenation no two rows have the
    same key (number, organization, repository), every key of the
    concatenation is still there, and the row kept for a key is the
    first row of the concatenation with that key.  The resolved-items
    table of a run that returns is obtained in this way from the results
    of the resolved-item tasks in the order their futures completed. *)
Theorem resolved_table_has_unique_keys :
  (forall rss : list (list ResolvedItemRecord),
     let rows := concat rss in
     let out := drop_duplicates rows in
     NoDup (map resolved_key out) /\
     (forall r, In r rows -> exists r', In r' out /\ resolved_key r' = resolved_key r) /\
     (forall r', In r' out ->
        find (fun r => key_eqb (resolved_key r) (resolved_key r')) rows = Some r')) /\
  (forall token pi max_workers time_range time_start time_end df dfr,
     get_time_range config (resolve_pi config pi) = Some time_range ->
     strptime_Ymd (fst time_range) = inr time_start ->
     strptime_Ymd (snd time_range) = inr time_end ->
     outcome (run token pi max_workers) = inr (df, dfr) ->
     dfr = drop_duplicates
             (concat (map rows_of
                        (done_resolved isoformat remote as_completed token
                           time_start time_end
                           (get_repos_x_contributors_for_pi config (resolve_pi config pi))
                           (get_contributors_for_pi config (resolve_pi config pi))))) /\
     NoDup (map resolved_key dfr)).
Proof.
  assert (Hpure : forall rows,
            let out := drop_duplicates rows in
            NoDup (map resolved_key out) /\
            (forall r, In r rows -> exists r', In r' out /\ resolved_key r' = resolved_key r) /\
            (forall r', In r' out ->
               find (fun r => key_eqb (resolved_key r) (resolved_key r')) rows = Some r')).
  { intro rows. destruct (drop_duplicates_from_spec rows []) as (Hnd & Hfirst & Hcov).
    split; [exact Hnd |]. split.
    - intros r Hr. apply Hcov; auto.
    - intros r' Hr'. now apply Hfirst. }
  split.
  - intro rss. apply Hpure.
  - intros token pi max_workers time_range time_start time_end df dfr
      Hrange Hstart Hend Hrun.
    assert (Htasks : get_repos_x_contributors_for_pi config (resolve_pi config pi) <> []).
    { intro H. destruct (main_without_tasks token pi max_workers H) as [[e He] _].
      congruence. }
    rewrite (main_outcome token pi max_workers _ _ _ Hrange Hstart Hend Htasks) in Hrun.
    destruct (Nat.eqb max_workers 0); [discriminate |].
    destruct (first_error (done_commits _ _ _ _ _ _)); [discriminate |].
    destruct (first_error (done_resolved _ _ _ _ _ _ _ _)); [discriminate |].
    cbv zeta in Hrun.
    destruct (to_csv _ _ (commits_csv _)); [discriminate |].
    destruct (to_csv _ _ (resolved_csv _)); [discriminate |].
    injection Hrun as _ <-. unfold resolved_table. rewrite <- flat_map_concat_map. split; auto.
    apply Hpure.
Qed.

Lemma first_error_map_inr {A B} (h : A -> B) (l : list A) :
  first_error (map (fun x => @inr exn B (h x)) l) = None.
Proof. induction l; simpl; auto. Qed.

Lemma caught_outcomes {A B} (body : A -> M (list B)) (task : A -> M (list B)) l :
  (forall x, outcome (task x) =
             match outcome (body x) with
             | inr rows => inr rows
             | inl e => if is_Exception e then inr [] else inl e
             end) ->
  (forall x err, In x l -> outcome (body x) = inl err -> is_Exception err = true) ->
  map (fun x => outcome (task x)) l =
  map (fun x => inr (rows_of (outcome (body x)))) l.
Proof.
  intros Htask Hexc. apply map_ext_in. intros x Hx. rewrite Htask.
  destruct (outcome (body x)) as [e | rows] eqn:E; auto.
  now rewrite (Hexc x e Hx E).
Qed.

Lemma rows_of_returning {A B} (body : A -> M (list B)) l :
  flat_map rows_of (map (fun x => @inr exn _ (rows_of (outcome (body x)))) l) =
  flat_map (fun x => rows_of (outcome (body x))) (filter (fun x => returns (body x)) l).
Proof.
  rewrite flat_map_map. simpl. apply flat_map_filter_nil.
  intros x _. unfold returns. now destruct (outcome (body x)).
Qed.

(** C4.  Neither fetch task ever raises an [Exception], the class of
    every failure of an API call.  When the body of a commit fetch task,
    or of a resolved-item fetch task, raises one, the task prints one
    line naming its owner, repository and author, respectively its
    contributor, with the message of the error, and returns the empty
    list.  In a run with at least one worker whose tasks fail in this
    way only and whose two files can be written, [main] returns, and
    its two tables are those made of the rows of the tasks whose body
    returned. *)
Theorem fetch_failures_are_contained :
  (forall g owner repo author start_date end_date err,
     outcome (get_commits_for_repo_author g owner repo author start_date end_date) = inl err ->
     is_Exception err = false) /\
  (forall g tasks contributor start_date end_date err,
     outcome (get_resolved_for_contributor isoformat g tasks contributor
                start_date end_date) = inl err ->
     is_Exception err = false) /\
  (forall g owner repo author start_date end_date err,
     outcome (get_commits_body g owner repo author start_date end_date) = inl err ->
     is_Exception err = true ->
     get_commits_for_repo_author g owner repo author start_date end_date =
     (events (get_commits_body g owner repo author start_date end_date)
        ++ [Print ("  Error processing " ++ owner ++ "/" ++ repo ++ " for " ++ author
                   ++ ": " ++ exn_msg err)],
      inr [])) /\
  (forall g tasks contributor start_date end_date err,
     outcome (get_resolved_body isoformat g tasks contributor start_date end_date) = inl err ->
     is_Exception err = true ->
     get_resolved_for_contributor isoformat g tasks contributor start_date end_date =
     (events (get_resolved_body isoformat g tasks contributor start_date end_date)
        ++ [Print ("  Error fetching issues/PRs for " ++ contributor ++ ": "
                   ++ exn_msg err)],
      inr [])) /\
  (forall token pi max_workers time_range time_start time_end,
     let tasks := get_repos_x_contributors_for_pi config (resolve_pi config pi) in
     let contributors := get_contributors_for_pi config (resolve_pi config pi) in
     let commits_body := commit_task_body remote token time_start time_end in
     let resolved_body := resolved_task_body isoformat remote token tasks time_start time_end in
     get_time_range config (resolve_pi config pi) = Some time_range ->
     strptime_Ymd (fst time_range) = inr time_start ->
     strptime_Ymd (snd time_range) = inr time_end ->
     tasks <> [] ->
     0 < max_workers ->
     to_csv _ (commits_table remote as_completed token time_start time_end tasks)
       (commits_csv (resolve_pi config pi)) = inr tt ->
     to_csv _ (resolved_table isoformat remote as_completed token time_start time_end
                 tasks contributors)
       (resolved_csv (resolve_pi config pi)) = inr tt ->
     (forall t err, In t tasks -> outcome (commits_body t) = inl err ->
                    is_Exception err = true) ->
     (forall c err, In c contributors -> outcome (resolved_body c) = inl err ->
                    is_Exception err = true) ->
     exists order_c order_r,
       Permutation tasks order_c /\
       Permutation contributors order_r /\
       outcome (run token pi max_workers) =
       inr (flat_map (fun t => rows_of (outcome (commits_body t)))
                     (filter (fun t => returns (commits_body t)) order_c),
            drop_duplicates
              (flat_map (fun c => rows_of (outcome (resolved_body c)))
                        (filter (fun c => returns (resolved_body c)) order_r)))).
Proof.
  split; [| split; [| split; [| split]]].
  - intros g owner repo author start_date end_date err H.
    now apply get_commits_escapes in H.
  - intros g tasks contributor start_date end_date err H.
    now apply get_resolved_escapes in H.
  - intros. now apply get_commits_caught.
  - intros. now apply get_resolved_caught.
  - intros token pi max_workers time_range time_start time_end tasks contributors
      commits_body resolved_body Hrange Hstart Hend Htasks Hworkers Hcsv1 Hcsv2 Hc Hr.
    rewrite (main_outcome token pi max_workers _ _ _ Hrange Hstart Hend Htasks).
    fold tasks contributors. cbv zeta. rewrite Hcsv1, Hcsv2.
    rewrite (proj2 (Nat.eqb_neq max_workers 0)) by lia.
    unfold commits_table, resolved_table.
    destruct (done_commits_order token time_start time_end tasks)
      as (order_c & Hperm_c & ->).
    destruct (done_resolved_order token time_start time_end tasks contributors)
      as (order_r & Hperm_r & ->).
    exists order_c, order_r. split; [exact Hperm_c |]. split; [exact Hperm_r |].
    rewrite (caught_outcomes commits_body (commits_task token time_start time_end)),
            (caught_outcomes resolved_body
               (fun c => resolved_task token tasks time_start time_end (snd c))).
    + rewrite !first_error_map_inr.
      now rewrite (rows_of_returning commits_body), (rows_of_returning resolved_body).
    + intro c. apply process_resolved_outcome.
    + intros c err Hin. apply Hr.
      eapply Permutation_in; [apply Permutation_sym, Hperm_r | exact Hin].
    + intro t. apply process_commits_outcome.
    + intros t err Hin. apply Hc.
      eapply Permutation_in; [apply Permutation_sym, Hperm_c | exact Hin].
Qed.

(** C5, as amended.  An error raised inside a commit fetch task leaves
    the task exactly when it is not an [Exception] ([KeyboardInterrupt],
    [SystemExit]).  An [Exception], wherever in the body it is raised,
    the grouping loop included, is caught at the task boundary: the
    task prints the line that names owner, repository, author and the
    error, and returns the empty list.  An error that leaves a commit
    task of a run with at least one worker ends the run: the run raises
    an error of a commit task, one that is not an [Exception]. *)
Theorem commit_task_raises_only_non_Exception :
  (forall g owner repo author start_date end_date err,
     outcome (get_commits_for_repo_author g owner repo author start_date end_date) = inl err
     <->
     outcome (get_commits_body g owner repo author start_date end_date) = inl err /\
     is_Exception err = false) /\
  (forall g owner repo author start_date end_date err,
     outcome (get_commits_body g owner repo author start_date end_date) = inl err ->
     is_Exception err = true ->
     get_commits_for_repo_author g owner repo author start_date end_date =
     (events (get_commits_body g owner repo author start_date end_date)
        ++ [Print ("  Error processing " ++ owner ++ "/" ++ repo ++ " for " ++ author
                   ++ ": " ++ exn_msg err)],
      inr [])) /\
  (forall token pi max_workers time_range time_start time_end t err,
     get_time_range config (resolve_pi config pi) = Some time_range ->
     strptime_Ymd (fst time_range) = inr time_start ->
     strptime_Ymd (snd time_range) = inr time_end ->
     0 < max_workers ->
     In t (get_repos_x_contributors_for_pi config (resolve_pi config pi)) ->
     outcome (commit_task_body remote token time_start time_end t) = inl err ->
     is_Exception err = false ->
     exists e t',
       outcome (run token pi max_workers) = inl e /\
       In t' (get_repos_x_contributors_for_pi config (resolve_pi config pi)) /\
       outcome (commits_task token time_start time_end t') = inl e /\
       is_Exception e = false).
Proof.
  split; [| split].
  - intros. apply get_commits_escapes.
  - intros g owner repo author start_date end_date err Hbody Hexc.
    now apply get_commits_caught.
  - intros token pi max_workers time_range time_start time_end t err
      Hrange Hstart Hend Hworkers Hin Hbody Hexc.
    assert (Htasks : get_repos_x_contributors_for_pi config (resolve_pi config pi) <> []).
    { intro H. rewrite H in Hin. destruct Hin. }
    rewrite (main_outcome token pi max_workers _ _ _ Hrange Hstart Hend Htasks).
    rewrite (proj2 (Nat.eqb_neq max_workers 0)) by lia.
    destruct (done_commits_order token time_start time_end
                (get_repos_x_contributors_for_pi config (resolve_pi config pi)))
      as (order & Hperm & Hdone).
    assert (Hraised : In (inl err)
                         (done_commits remote as_completed token time_start time_end
                            (get_repos_x_contributors_for_pi config (resolve_pi config pi)))).
    { rewrite Hdone. apply in_map_iff. exists t. split.
      - rewrite process_commits_outcome, Hbody, Hexc. reflexivity.
      - eapply Permutation_in; [exact Hperm | exact Hin]. }
    destruct (first_error_of_In _ _ Hraised) as [e' Hfirst]. rewrite Hfirst.
    apply first_error_Some_In in Hfirst. rewrite Hdone in Hfirst.
    apply in_map_iff in Hfirst as (t' & Ht' & Hin').
    exists e', t'. split; [reflexivity |]. split.
    + eapply Permutation_in; [apply Permutation_sym, Hperm | exact Hin'].
    + split; [exact Ht' |].
      rewrite process_commits_outcome in Ht'.
      destruct (outcome (commit_task_body remote token time_start time_end t'))
        as [e0 | rows]; [| discriminate].
      destruct (is_Exception e0) eqn:E0; [discriminate |].
      now injection Ht' as <-.
Qed.

End MainProperties.

(** * The properties on the sample world *)

Lemma last_first_perm A (l : list A) : Permutation l (last_first A l).
Proof. apply Permutation_rev. Qed.

Lemma workers_first_perm evs : Permutation evs (workers_first evs).
Proof. apply Permutation_refl. Qed.

Lemma workers_first_main evs : main_thread (workers_first evs) = main_thread evs.
Proof. reflexivity. Qed.

(** C5, as stated, fails.  Commit [x] makes the grouping loop raise a
    [TypeError]; the task does not let it out, it returns the empty
    list. *)
Lemma commit_task_swallows_grouping_defect :
  outcome (get_commits_body faulty_github "org" "repo" "ada" sample_start sample_end)
    = inl (mk_exn TypeError "'NoneType' object is not subscriptable") /\
  get_commits_for_repo_author faulty_github "org" "repo" "ada" sample_start sample_end
    = ([CallGetRepo "org/repo"; CallGetCommits "ada" sample_start sample_end;
        CallGetPulls "a"; CallGetPulls "x";
        Print "  Error processing org/repo for ada: 'NoneType' object is not subscriptable"],
       inr []).
Proof. split; reflexivity. Qed.


Lemma commit_rows_prs_then_standalone_on_scenario :
  outcome (get_commits_for_repo_author sample_github "org" "repo" "ada"
             sample_start sample_end) =
  inr (map (fun c => commit_record "org" "repo" c (stats_of c))
           [sample_commit "a" [101%Z]; sample_commit "c" []]).
Proof.
  apply (commit_rows_prs_then_standalone sample_github "org" "repo" "ada"
           sample_start sample_end sample_repository (map fst scenario_commits)).
  - reflexivity.
  - reflexivity.
  - intros c H. simpl in H.
    repeat (destruct H as [<- | H]; [eexists; reflexivity |]). destruct H.
  - intros c H. simpl in H.
    repeat (destruct H as [<- | H]; [eexists; reflexivity |]). destruct H.
Defined.

Lemma resolved_rows_within_tasks_on_sample :
  let rows := rows_of (outcome (get_resolved_for_contributor sample_isoformat sample_github
                                  alice_tasks "alice" sample_start sample_end)) in
  map resolved_key rows = [(7%Z, "org", "repo"); (9%Z, "org", "repo")] /\
  ~ In (resolved_details sample_isoformat (sample_item 8 "org" "other" None)
          "org" "other" "alice") rows.
Proof.
  split; [reflexivity |].
  apply (proj2 (resolved_rows_within_tasks sample_isoformat sample_github alice_tasks
                  "alice" sample_start sample_end _ eq_refl)
               (sample_item 8 "org" "other" None) "org" "other" eq_refl).
  simpl. intros [H | []]. discriminate H.
Defined.


Lemma main_fails_fast_without_tasks :
  outcome (sample_main sample_github [] [("Ada", "ada")] None)
    = inl (mk_exn ValueError "No repos x contributors found in config.") /\
  Forall (fun ev => is_fetch_activity ev = false)
         (events (sample_main sample_github [] [("Ada", "ada")] None)).
Proof.
  destruct (main_fails_fast sample_isoformat (fun _ => sample_github)
              (sample_config [] [("Ada", "ada")]) sample_strptime writable
              last_first workers_first
              (Some "token") None 10 (or_intror eq_refl))
    as (_ & Hevents & _ & Hraise).
  split; [| exact Hevents].
  exact (Hraise eq_refl ("20260105", "20260327") sample_start sample_end
           eq_refl eq_refl eq_refl).
Defined.

Lemma main_runs_without_contributors_on_sample :
  Forall (fun ev => is_resolved_activity ev = false)
         (events (sample_main sample_github [ada_task] [] None)) /\
  outcome (sample_main sample_github [ada_task] [] None) =
  inr (map (fun c => commit_record "org" "repo" c (stats_of c))
           [sample_commit "a" [101%Z]; sample_commit "c" []],
       []).
Proof.
  assert (Htasks : [ada_task] <> []) by discriminate.
  assert (Hworkers : 0 < 10) by lia.
  destruct (main_runs_without_contributors sample_isoformat (fun _ => sample_github)
              (sample_config [ada_task] []) sample_strptime writable
              last_first last_first_perm workers_first workers_first_perm
              (Some "token") None 10 ("20260105", "20260327") sample_start sample_end
              eq_refl eq_refl eq_refl Htasks eq_refl Hworkers)
    as (_ & Hevents & _ & _ & Hreturns).
  split; [exact Hevents |].
  apply Hreturns.
  - intros t [<- | []]. eexists. reflexivity.
  - reflexivity.
  - reflexivity.
Defined.

Lemma commit_table_keeps_rows_of_duplicate_tasks :
  2 <= count_occ CommitRecord_eq_dec
         (fst (tables (sample_main sample_github [ada_task; ada_task] [("Ada", "ada")] None)))
         row_a.
Proof.
  destruct (commit_table_is_concatenation sample_isoformat (fun _ => sample_github)
              (sample_config [ada_task; ada_task] [("Ada", "ada")]) sample_strptime writable
              last_first last_first_perm workers_first (Some "token") None 10
              ("20260105", "20260327") sample_start sample_end
              (fst (tables (sample_main sample_github [ada_task; ada_task]
                              [("Ada", "ada")] None)))
              (snd (tables (sample_main sample_github [ada_task; ada_task]
                              [("Ada", "ada")] None)))
              eq_refl eq_refl eq_refl eq_refl)
    as (order & _ & _ & Hcount).
  exact (Hcount ada_task row_a).
Defined.

Lemma resolved_table_has_unique_keys_on_sample :
  let dfr := snd (tables (sample_main sample_github two_reviewers_tasks two_reviewers None)) in
  map (fun r => (resolved_key r, rr_contributor r)) dfr
    = [((7%Z, "org", "repo"), "bob"); ((9%Z, "org", "repo"), "bob")] /\
  NoDup (map resolved_key dfr).
Proof.
  split; [reflexivity |].
  apply (proj2 (resolved_table_has_unique_keys sample_isoformat (fun _ => sample_github)
                  (sample_config two_reviewers_tasks two_reviewers) sample_strptime writable
                  last_first workers_first)
               (Some "token") None 10 ("20260105", "20260327") sample_start sample_end
               (fst (tables (sample_main sample_github two_reviewers_tasks
                               two_reviewers None)))
               _ eq_refl eq_refl eq_refl eq_refl).
Defined.

Lemma fetch_failures_are_contained_on_sample :
  get_commits_for_repo_author sample_github "org" "missing" "ada" sample_start sample_end
    = ([CallGetRepo "org/missing";
        Print "  Error processing org/missing for ada: 404 Not Found"],
       inr []) /\
  exists df dfr,
    outcome (sample_main sample_github [missing_task; ada_task] [("Ada", "ada")] None)
    = inr (df, dfr).
Proof.
  pose proof (fetch_failures_are_contained sample_isoformat (fun _ => sample_github)
                (sample_config [missing_task; ada_task] [("Ada", "ada")]) sample_strptime writable
                last_first last_first_perm workers_first) as (_ & _ & Hcommits & _ & Hrun).
  split.
  - apply (Hcommits sample_github "org" "missing" "ada" sample_start sample_end
             (mk_exn GithubException "404 Not Found")); reflexivity.
  - assert (Htasks : [missing_task; ada_task] <> []) by discriminate.
    assert (Hworkers : 0 < 10) by lia.
    destruct (Hrun (Some "token") None 10 ("20260105", "20260327") sample_start sample_end
                eq_refl eq_refl eq_refl Htasks Hworkers eq_refl eq_refl)
      as (order_c & order_r & _ & _ & Hout).
    + intros t err [<- | [<- | []]] H; vm_compute in H.
      * injection H as <-. reflexivity.
      * discriminate H.
    + intros c err [<- | []] H. vm_compute in H. discriminate H.
    + eexists. eexists. exact Hout.
Defined.

Lemma commit_task_raises_only_non_Exception_on_sample :
  exists e t,
    outcome (sample_main interrupted_github [ada_task] [] None) = inl e /\
    In t [ada_task] /\
    outcome (process_commits_task (fun _ => interrupted_github) (Some "token")
               sample_start sample_end t) = inl e /\
    is_Exception e = false.
Proof.
  assert (Hworkers : 0 < 10) by lia.
  apply (proj2 (proj2 (commit_task_raises_only_non_Exception sample_isoformat
                         (fun _ => interrupted_github) (sample_config [ada_task] [])
                         sample_strptime writable last_first last_first_perm workers_first))
               (Some "token") None 10 ("20260105", "20260327") sample_start sample_end
               ada_task (mk_exn KeyboardInterrupt "")).
  - reflexivity.
  - reflexivity.
  - reflexivity.
  - exact Hworkers.
  - left. reflexivity.
  - reflexivity.
  - reflexivity.
Defined.

(** * Further properties of the commit fetch task *)

Lemma has_newline_String c s :
  has_newline (String c s) = Ascii.eqb "010" c || has_newline s.
Proof. reflexivity. Qed.

Lemma first_line_String c s :
  first_line (String c s) =
  if Ascii.eqb c "010" then EmptyString else String c (first_line s).
Proof. reflexivity. Qed.

Lemma first_line_no_newline s : has_newline (first_line s) = false.
Proof.
  induction s as [| c s IH]; [reflexivity |].
  rewrite first_line_String. destruct (Ascii.eqb c "010") eqn:E; [reflexivity |].
  rewrite has_newline_String, Ascii.eqb_sym, E. exact IH.
Qed.

Lemma first_line_split s :
  exists rest, s = (first_line s ++ rest)%string /\
               (rest = "" \/ exists r, rest = String "010" r).
Proof.
  induction s as [| c s (rest & Heq & Hrest)].
  - exists "". auto.
  - rewrite first_line_String. destruct (Ascii.eqb_spec c "010") as [-> | Hne].
    + exists (String "010" s). split; eauto.
    + exists rest. split; [| exact Hrest].
      change (String c s = String c (first_line s ++ rest)). congruence.
Qed.

Lemma first_line_whole s : has_newline s = false -> first_line s = s.
Proof.
  induction s as [| c s IH]; [reflexivity |].
  rewrite has_newline_String, first_line_String, Ascii.eqb_sym.
  destruct (Ascii.eqb c "010"); [discriminate |].
  intro H. now rewrite IH.
Qed.

(** X1.  The message of a commit row is the text of the commit message
    before its first line feed: it has no line feed, the commit message
    is that text followed by nothing or by a line feed and more, and a
    message without line feed is taken whole. *)
Theorem commit_row_message_is_first_line owner repo commit commit_stats :
  let m := cr_message (commit_record owner repo commit commit_stats) in
  has_newline m = false /\
  (exists rest, message commit = (m ++ rest)%string /\
                (rest = "" \/ exists r, rest = String "010" r)) /\
  (has_newline (message commit) = false -> m = message commit).
Proof.
  simpl. split; [apply first_line_no_newline |].
  split; [apply first_line_split | apply first_line_whole].
Qed.

Lemma group_loop_inv commits : forall st st',
  outcome (for_each (fun st commit =>
                       emit (CallGetPulls (sha commit)) ;;;
                       pulls <- lift (get_pulls commit) ;;
                       ret (group_commit st commit pulls))
                    commits st) = inr st' ->
  forall c, In c commits -> exists ps, get_pulls c = inr ps.
Proof.
  induction commits as [| c0 commits IH]; intros st st' Hout c Hc; [destruct Hc |].
  rewrite for_each_cons, outcome_bind in Hout.
  destruct (get_pulls c0) as [e | ps] eqn:Hps; simpl in Hout; [discriminate |].
  destruct Hc as [<- | Hc]; eauto.
Qed.

Lemma details_loop_inv owner repo l : forall acc rows,
  outcome (for_each (fun results commit =>
                       r <- commit_details owner repo commit ;;
                       ret (results ++ [r]))
                    l acc) = inr rows ->
  forall c, In c l -> exists s, stats c = inr s.
Proof.
  induction l as [| c0 l IH]; intros acc rows Hout c Hc; [destruct Hc |].
  rewrite for_each_cons, outcome_bind in Hout. unfold commit_details in Hout.
  destruct (stats c0) as [e | s] eqn:Hs; simpl in Hout; [discriminate |].
  destruct Hc as [<- | Hc]; eauto.
Qed.

Lemma get_commits_body_ok_kept g owner repo author start_date end_date repository commits :
  get_repo g (owner ++ "/" ++ repo) = inr repository ->
  get_commits repository author start_date end_date = inr commits ->
  (forall c, In c commits -> exists ps, get_pulls c = inr ps) ->
  (forall c, In c (kept (classify (map with_pulls commits))) -> exists s, stats c = inr s) ->
  get_commits_body g owner repo author start_date end_date =
  (commit_task_calls owner repo author start_date end_date commits,
   inr (map (fun c => commit_record owner repo c (stats_of c))
            (kept (classify (map with_pulls commits))))).
Proof.
  intros Hrepo Hcommits Hpulls Hstats. unfold get_commits_body, commit_task_calls.
  rewrite Hrepo. simpl. rewrite Hcommits. simpl.
  rewrite group_loop_ok by assumption. simpl.
  fold (classify (map with_pulls commits)).
  fold (kept (classify (map with_pulls commits))).
  rewrite details_loop_ok by assumption. simpl. now rewrite app_nil_r.
Qed.

Lemma get_commits_body_inv g owner repo author start_date end_date rows :
  outcome (get_commits_body g owner repo author start_date end_date) = inr rows ->
  exists repository commits,
    get_repo g (owner ++ "/" ++ repo) = inr repository /\
    get_commits repository author start_date end_date = inr commits /\
    (forall c, In c commits -> exists ps, get_pulls c = inr ps) /\
    (forall c, In c (kept (classify (map with_pulls commits))) ->
               exists s, stats c = inr s) /\
    rows = map (fun c => commit_record owner repo c (stats_of c))
               (kept (classify (map with_pulls commits))).
Proof.
  intro Hout. unfold get_commits_body in Hout.
  rewrite outcome_bind in Hout. cbn [outcome emit snd] in Hout.
  rewrite outcome_bind in Hout. cbn [outcome lift snd] in Hout.
  destruct (get_repo g (owner ++ "/" ++ repo)) as [e | repository] eqn:Hrepo;
    [discriminate |].
  rewrite outcome_bind in Hout. cbn [outcome emit snd] in Hout.
  rewrite outcome_bind in Hout. cbn [outcome lift snd] in Hout.
  destruct (get_commits repository author start_date end_date) as [e | commits] eqn:Hcommits;
    [discriminate |].
  rewrite outcome_bind in Hout.
  match type of Hout with
  | match outcome ?loop with _ => _ end = _ =>
      destruct (outcome loop) as [e | st] eqn:Hloop; [discriminate |]
  end.
  pose proof (group_loop_inv _ _ _ Hloop) as Hpulls.
  rewrite group_loop_ok in Hloop by assumption. simpl in Hloop.
  injection Hloop as <-.
  fold (classify (map with_pulls commits)) in Hout.
  fold (kept (classify (map with_pulls commits))) in Hout.
  pose proof (details_loop_inv _ _ _ _ _ Hout) as Hstats.
  rewrite details_loop_ok in Hout by assumption. simpl in Hout.
  injection Hout as <-.
  exists repository, commits. auto.
Qed.

(** X2.  The body of the commit fetch task returns exactly when the
    repository lookup, the listing, the pull-request lookup of every
    listed commit and the statistics of every kept commit succeed; its
    rows are then those of the kept commits.  The statistics of a
    dropped commit play no part. *)
Theorem commit_body_returns_iff g owner repo author start_date end_date rows :
  outcome (get_commits_body g owner repo author start_date end_date) = inr rows <->
  exists repository commits,
    get_repo g (owner ++ "/" ++ repo) = inr repository /\
    get_commits repository author start_date end_date = inr commits /\
    (forall c, In c commits -> exists ps, get_pulls c = inr ps) /\
    (forall c, In c (kept (classify (map with_pulls commits))) ->
               exists s, stats c = inr s) /\
    rows = map (fun c => commit_record owner repo c (stats_of c))
               (kept (classify (map with_pulls commits))).
Proof.
  split.
  - apply get_commits_body_inv.
  - intros (repository & commits & Hrepo & Hcommits & Hpulls & Hstats & ->).
    now rewrite (get_commits_body_ok_kept _ _ _ _ _ _ _ _ Hrepo Hcommits Hpulls Hstats).
Qed.

Lemma get_commits_outcome_inr g owner repo author start_date end_date rows :
  outcome (get_commits_for_repo_author g owner repo author start_date end_date) = inr rows ->
  rows = [] \/
  outcome (get_commits_body g owner repo author start_date end_date) = inr rows.
Proof.
  unfold get_commits_for_repo_author. rewrite outcome_try_except.
  destruct (outcome (get_commits_body g owner repo author start_date end_date))
    as [e | rows'].
  - destruct (is_Exception e); simpl; [| discriminate].
    intro H. injection H as <-. now left.
  - intro H. injection H as <-. now right.
Qed.

Lemma pos_filter_accepts {A} (p : list A -> A -> bool) l : forall pre x,
  In x (pos_filter p pre l) -> exists pre', p pre' x = true.
Proof.
  induction l as [| a l IH]; intros pre x; simpl; [intros [] |].
  rewrite in_app_iff. intros [H | H].
  - destruct (p pre a) eqn:E; [| destruct H]. destruct H as [<- | []]. eauto.
  - eapply IH, H.
Qed.

(** A kept commit is a listed commit with at most one linked pull
    request. *)
Lemma kept_commit_of_listing commits c :
  In c (kept (classify (map with_pulls commits))) ->
  In c commits /\ length (pulls_of c) <= 1.
Proof.
  rewrite kept_classify, in_app_iff, !in_map_iff.
  intros [(x & <- & Hx) | (x & <- & Hx)].
  - pose proof (pos_filter_incl _ _ _ _ Hx) as Hin.
    apply in_map_iff in Hin as (c & <- & Hc). split; auto.
    apply pos_filter_accepts in Hx as (pre & Hsole).
    unfold first_sole in Hsole. simpl in *.
    destruct (pulls_of c) as [| n [| m t]]; simpl; auto; discriminate.
  - apply filter_In in Hx as [Hin Hst].
    apply in_map_iff in Hin as (c & <- & Hc). split; auto.
    unfold standalone in Hst. simpl in *.
    destruct (pulls_of c); simpl; auto; discriminate.
Qed.

(** X3.  Every row a commit fetch task returns carries the owner and the
    repository the task was given, and is the row of a commit of the
    listing that is linked to at most one pull request: a commit linked
    to several pull requests never gives a row. *)
Theorem commit_rows_come_from_listing g owner repo author start_date end_date rows
    (Hrows : outcome (get_commits_for_repo_author g owner repo author
                        start_date end_date) = inr rows) :
  forall row, In row rows ->
    cr_organization row = owner /\
    cr_repository row = repo /\
    exists repository commits c,
      get_repo g (owner ++ "/" ++ repo) = inr repository /\
      get_commits repository author start_date end_date = inr commits /\
      In c commits /\
      length (pulls_of c) <= 1 /\
      row = commit_record owner repo c (stats_of c).
Proof.
  intros row Hrow.
  apply get_commits_outcome_inr in Hrows as [-> | Hbody]; [destruct Hrow |].
  apply get_commits_body_inv in Hbody
    as (repository & commits & Hrepo & Hcommits & _ & _ & ->).
  apply in_map_iff in Hrow as (c & <- & Hc).
  apply kept_commit_of_listing in Hc as [Hc Hlen].
  repeat split; auto. exists repository, commits, c. auto.
Qed.

Lemma NoDup_map_pos_filter {A B} (k : A -> B) (p : list A -> A -> bool) l : forall pre,
  NoDup (map k l) -> NoDup (map k (pos_filter p pre l)).
Proof.
  induction l as [| x l IH]; intros pre Hnd; simpl; [constructor |].
  inversion Hnd as [| ? ? Hx Hl]; subst.
  destruct (p pre x); simpl; [constructor |]; auto.
  intro Hin. apply Hx. apply in_map_iff in Hin as (y & Hk & Hy).
  apply in_map_iff. exists y. split; auto. eapply pos_filter_incl, Hy.
Qed.

Lemma NoDup_map_filter {A B} (k : A -> B) (p : A -> bool) l :
  NoDup (map k l) -> NoDup (map k (filter p l)).
Proof.
  induction l as [| x l IH]; intro Hnd; simpl; [constructor |].
  inversion Hnd as [| ? ? Hx Hl]; subst.
  destruct (p x); simpl; [constructor |]; auto.
  intro Hin. apply Hx. apply in_map_iff in Hin as (y & Hk & Hy).
  apply in_map_iff. exists y. split; auto. now apply filter_In in Hy.
Qed.

Lemma NoDup_map_injective {A B} (k : A -> B) l x y :
  NoDup (map k l) -> In x l -> In y l -> k x = k y -> x = y.
Proof.
  induction l as [| a l IH]; intros Hnd Hx Hy Hk; [destruct Hx |].
  inversion Hnd as [| ? ? Ha Hl]; subst.
  destruct Hx as [-> | Hx], Hy as [-> | Hy]; auto.
  - elim Ha. rewrite Hk. now apply in_map.
  - elim Ha. rewrite <- Hk. now apply in_map.
Qed.

Lemma kept_shas_NoDup commits :
  NoDup (map sha commits) ->
  NoDup (map sha (kept (classify (map with_pulls commits)))).
Proof.
  intro Hnd. rewrite kept_classify, map_app, !map_map.
  assert (Hcs : NoDup (map (fun x => sha (fst x)) (map with_pulls commits))).
  { now rewrite map_map. }
  apply NoDup_app.
  - now apply NoDup_map_pos_filter.
  - now apply NoDup_map_filter.
  - intros s Hp Hs.
    apply in_map_iff in Hp as (x & Hsx & Hx).
    apply in_map_iff in Hs as (y & Hsy & Hy).
    pose proof (pos_filter_incl _ _ _ _ Hx) as Hxin.
    apply filter_In in Hy as [Hyin Hst].
    assert (x = y).
    { apply (NoDup_map_injective (fun x => sha (fst x)) (map with_pulls commits));
        auto. congruence. }
    subst y. apply pos_filter_accepts in Hx as (pre & Hsole).
    unfold first_sole in Hsole. unfold standalone in Hst.
    destruct (snd x) as [| n [| m t]]; discriminate.
Qed.

(** X4.  When the commits of the listing have pairwise distinct hashes,
    so have the rows of the task: no commit is reported twice, neither
    twice among the pull-request commits or the standalone commits nor
    once in each. *)
Theorem commit_rows_have_distinct_shas
    g owner repo author start_date end_date repository commits rows
    (Hrepo : get_repo g (owner ++ "/" ++ repo) = inr repository)
    (Hcommits : get_commits repository author start_date end_date = inr commits)
    (Hdistinct : NoDup (map sha commits))
    (Hrows : outcome (get_commits_for_repo_author g owner repo author
                        start_date end_date) = inr rows) :
  NoDup (map cr_sha rows).
Proof.
  apply get_commits_outcome_inr in Hrows as [-> | Hbody]; [constructor |].
  apply get_commits_body_inv in Hbody
    as (repository' & commits' & Hrepo' & Hcommits' & _ & _ & ->).
  rewrite Hrepo in Hrepo'. injection Hrepo' as <-.
  rewrite Hcommits in Hcommits'. injection Hcommits' as <-.
  rewrite map_map. simpl. now apply kept_shas_NoDup.
Qed.

(** X5.  When the pull-request lookup of one listed commit fails, the
    task returns no row at all: the commits grouped before the failure
    are lost with it. *)
Theorem commit_rows_lost_on_failed_lookup
    g owner repo author start_date end_date repository commits c e rows
    (Hrepo : get_repo g (owner ++ "/" ++ repo) = inr repository)
    (Hcommits : get_commits repository author start_date end_date = inr commits)
    (Hc : In c commits)
    (Hfail : get_pulls c = inl e)
    (Hrows : outcome (get_commits_for_repo_author g owner repo author
                        start_date end_date) = inr rows) :
  rows = [].
Proof.
  apply get_commits_outcome_inr in Hrows as [-> | Hbody]; [reflexivity |].
  apply get_commits_body_inv in Hbody
    as (repository' & commits' & Hrepo' & Hcommits' & Hpulls & _ & _).
  rewrite Hrepo in Hrepo'. injection Hrepo' as <-.
  rewrite Hcommits in Hcommits'. injection Hcommits' as <-.
  destruct (Hpulls c Hc) as [ps Hps]. congruence.
Qed.

(** X6.  A commit fetch task whose requests succeed looks the repository
    up once, lists the commits once and looks up the pull requests of
    every listed commit once, in the order of the listing, also of the
    commits it then drops; it prints nothing. *)
Theorem commit_task_looks_at_every_commit
    g owner repo author start_date end_date repository commits
    (Hrepo : get_repo g (owner ++ "/" ++ repo) = inr repository)
    (Hcommits : get_commits repository author start_date end_date = inr commits)
    (Hpulls : forall c, In c commits -> exists ps, get_pulls c = inr ps)
    (Hstats : forall c, In c (kept (classify (map with_pulls commits))) ->
                        exists s, stats c = inr s) :
  events (get_commits_for_repo_author g owner repo author start_date end_date) =
  [CallGetRepo (owner ++ "/" ++ repo); CallGetCommits author start_date end_date]
  ++ map (fun c => CallGetPulls (sha c)) commits.
Proof.
  unfold get_commits_for_repo_author. rewrite events_try_except.
  rewrite (get_commits_body_ok_kept _ _ _ _ _ _ _ _ Hrepo Hcommits Hpulls Hstats).
  simpl. now rewrite app_nil_r.
Qed.

(** * Further properties of the resolved-item fetch task *)

Section ResolvedExtras.

Variable isoformat : datetime -> string.

Lemma resolve_loop_ok tasks contributor items : forall acc,
  (forall item, In item items -> exists r, item_repository item = inr r) ->
  for_each (resolve_item isoformat tasks contributor) items acc =
  ([], inr (acc ++ flat_map (item_rows isoformat tasks contributor) items)).
Proof.
  induction items as [| item items IH]; intros acc Hok.
  - simpl. now rewrite app_nil_r.
  - destruct (Hok item (or_introl eq_refl)) as [[o rp] Hrepo].
    rewrite for_each_cons. cbn [flat_map].
    unfold resolve_item at 1, item_rows at 1. rewrite Hrepo.
    cbn [bind lift app].
    destruct (in_tasks (o, rp, contributor) tasks); cbn [bind ret negb app];
      rewrite IH by (intros; apply Hok; now right); cbn [app].
    + now rewrite <- app_assoc.
    + reflexivity.
Qed.

(** X7.  When both searches succeed and the repository of every result
    loads, the task returns one row for every result that lies within
    the tasks of the contributor, and no other: first the rows of the
    issue search, then those of the pull-request search, each in the
    order of the search, a result found twice giving two rows. *)
Theorem resolved_rows_are_the_results_in_scope
    g tasks contributor start_date end_date issues prs
    (Hissues : search_issues g (issues_query tasks contributor start_date end_date)
               = inr issues)
    (Hprs : search_issues g (prs_query tasks contributor start_date end_date) = inr prs)
    (Hrepos : forall item, In item (issues ++ prs) ->
                           exists r, item_repository item = inr r) :
  outcome (get_resolved_for_contributor isoformat g tasks contributor start_date end_date)
  = inr (flat_map (item_rows isoformat tasks contributor) issues
         ++ flat_map (item_rows isoformat tasks contributor) prs).
Proof.
  unfold get_resolved_for_contributor. rewrite outcome_try_except.
  unfold get_resolved_body. simpl. rewrite Hissues, Hprs. simpl.
  rewrite resolve_loop_ok by assumption. simpl. now rewrite flat_map_app.
Qed.

(** X8.  For a contributor that no task triple names, the task returns
    no row, whatever the two searches find. *)
Theorem contributor_without_task_has_no_row
    g tasks contributor start_date end_date rows
    (Hnone : forall owner repo, ~ In (owner, repo, contributor) tasks)
    (Hrows : outcome (get_resolved_for_contributor isoformat g tasks contributor
                        start_date end_date) = inr rows) :
  rows = [].
Proof.
  apply get_resolved_returned in Hrows as [-> | Hbody]; [reflexivity |].
  destruct rows as [| r rows]; [reflexivity |].
  destruct (get_resolved_body_rows _ _ _ _ _ _ _ Hbody r (or_introl eq_refl))
    as (item & _ & _ & Hin & _).
  now elim (Hnone _ _ Hin).
Qed.

End ResolvedExtras.

Lemma join_cons sep s l :
  l <> [] -> join sep (s :: l) = (s ++ sep ++ join sep l)%string.
Proof. destruct l; [congruence | reflexivity]. Qed.

Lemma join_app sep l1 l2 :
  l1 <> [] -> l2 <> [] ->
  join sep (l1 ++ l2) = (join sep l1 ++ sep ++ join sep l2)%string.
Proof.
  intros H1 H2. induction l1 as [| s l1 IH]; [congruence |].
  destruct l1 as [| s' l1].
  - simpl app. now rewrite join_cons.
  - change ((s :: s' :: l1) ++ l2) with (s :: (s' :: l1) ++ l2).
    rewrite join_cons by discriminate. rewrite IH by discriminate.
    rewrite (join_cons sep s (s' :: l1)) by discriminate.
    now rewrite !append_assoc.
Qed.

(** X9.  For a task list that is not empty, the filter string is its
    qualifiers joined by single spaces: one [repo:owner/repo] per task
    triple, in the order of the list and repeated when two triples have
    the same repository, then [involves:] and [closed:].  The issue
    query puts [is:issue] before these qualifiers, the pull-request
    query [is:pr] before and [-author:] after them. *)
Theorem queries_are_joined_qualifiers tasks contributor start_date end_date
    (Htasks : tasks <> []) :
  let quals := qualifiers tasks contributor start_date end_date in
  length quals = length tasks + 2 /\
  base_query tasks contributor start_date end_date = join " " quals /\
  issues_query tasks contributor start_date end_date = join " " ("is:issue" :: quals) /\
  prs_query tasks contributor start_date end_date
  = join " " ("is:pr" :: quals ++ [("-author:" ++ contributor)%string]).
Proof.
  intro quals.
  assert (Hbase : base_query tasks contributor start_date end_date = join " " quals).
  { unfold quals, qualifiers, base_query.
    rewrite join_app; [reflexivity | | discriminate].
    destruct tasks; [congruence | discriminate]. }
  assert (Hquals : quals <> []).
  { unfold quals, qualifiers. destruct (map repo_filter tasks); discriminate. }
  split; [| split; [| split]].
  - unfold quals, qualifiers. rewrite length_app, length_map. reflexivity.
  - exact Hbase.
  - unfold issues_query. rewrite Hbase, join_cons by assumption. reflexivity.
  - unfold prs_query. rewrite Hbase, join_cons.
    + rewrite join_app by (assumption || discriminate). reflexivity.
    + destruct quals; [congruence | discriminate].
Qed.

(** * Further properties of the run *)

Lemma collected_all {A} (done : list (exn + A)) :
  first_error done = None -> collected done = length done.
Proof.
  induction done as [| [e | a] done IH]; simpl; auto. discriminate.
Qed.

Lemma collected_le {A} (done : list (exn + A)) : collected done <= length done.
Proof. induction done as [| [e | a] done IH]; simpl; lia. Qed.

Lemma first_error_app {A} (l1 l2 : list (exn + A)) :
  first_error (l1 ++ l2) =
  match first_error l1 with Some e => Some e | None => first_error l2 end.
Proof. induction l1 as [| [e | a] l1 IH]; simpl; auto. Qed.

Lemma closes_app a b : closes (a ++ b) = closes a + closes b.
Proof. unfold closes. now rewrite filter_app, length_app. Qed.

Lemma closes_none evs :
  Forall (fun ev => is_close ev = false) evs -> closes evs = 0.
Proof.
  unfold closes. induction 1 as [| ev evs Hev _ IH]; simpl; auto.
  now rewrite Hev.
Qed.

Lemma closes_flat_map {A} (l : list (M A)) :
  (forall m, In m l -> closes (events m) = 1) ->
  closes (flat_map events l) = length l.
Proof.
  induction l as [| m l IH]; intro H; simpl; auto.
  rewrite closes_app, H, IH.
  - reflexivity.
  - intros; apply H; now right.
  - now left.
Qed.

Lemma drop_duplicates_from_incl rows : forall seen r,
  In r (drop_duplicates_from seen rows) -> In r rows.
Proof.
  induction rows as [| a rows IH]; intros seen r; simpl; auto.
  destruct (existsb (key_eqb (resolved_key a)) seen).
  - intro H. right. eapply IH, H.
  - intros [-> | H]; [now left | right; eapply IH, H].
Qed.

Lemma drop_duplicates_from_length rows : forall seen,
  length (drop_duplicates_from seen rows) <= length rows.
Proof.
  induction rows as [| a rows IH]; intro seen; simpl; auto.
  destruct (existsb (key_eqb (resolved_key a)) seen); simpl.
  - specialize (IH seen). lia.
  - specialize (IH (seen ++ [resolved_key a])). lia.
Qed.

Lemma drop_duplicates_from_distinct rows : forall seen,
  NoDup (map resolved_key rows) ->
  (forall r, In r rows -> ~ In (resolved_key r) seen) ->
  drop_duplicates_from seen rows = rows.
Proof.
  induction rows as [| a rows IH]; intros seen Hnd Hfresh; simpl; auto.
  inversion Hnd as [| ? ? Ha Hrows]; subst.
  rewrite (proj2 (seen_key_not_In _ _) (Hfresh a (or_introl eq_refl))).
  f_equal. apply IH; auto.
  intros r Hr Hin. apply in_app_iff in Hin as [Hin | [Heq | []]].
  - apply (Hfresh r); auto. now right.
  - apply Ha. rewrite Heq. now apply in_map.
Qed.

(** X16.  [drop_duplicates] leaves rows with pairwise distinct keys as
    they are, in their order; it never adds a row; and applying it to
    its own result changes nothing. *)
Theorem drop_duplicates_only_drops_repeats (rows : list ResolvedItemRecord) :
  (NoDup (map resolved_key rows) -> drop_duplicates rows = rows) /\
  length (drop_duplicates rows) <= length rows /\
  (forall r, In r (drop_duplicates rows) -> In r rows) /\
  drop_duplicates (drop_duplicates rows) = drop_duplicates rows.
Proof.
  assert (Hdistinct : forall l, NoDup (map resolved_key l) -> drop_duplicates l = l).
  { intros l Hnd. apply drop_duplicates_from_distinct; auto. }
  split; [apply Hdistinct |]. split; [apply drop_duplicates_from_length |].
  split; [apply drop_duplicates_from_incl |].
  apply Hdistinct. apply (drop_duplicates_from_spec rows []).
Qed.

Lemma commit_rows_owner_repo g owner repo author start_date end_date rows :
  outcome (get_commits_for_repo_author g owner repo author start_date end_date) = inr rows ->
  forall row, In row rows -> cr_organization row = owner /\ cr_repository row = repo.
Proof.
  intros Hrows row Hrow.
  apply get_commits_outcome_inr in Hrows as [-> | Hbody]; [destruct Hrow |].
  apply get_commits_body_inv in Hbody as (repository & commits & _ & _ & _ & _ & ->).
  apply in_map_iff in Hrow as (c & <- & _). auto.
Qed.

Lemma resolved_rows_triple isoformat g tasks contributor start_date end_date rows :
  outcome (get_resolved_for_contributor isoformat g tasks contributor
             start_date end_date) = inr rows ->
  forall r, In r rows ->
    In (rr_organization r, rr_repository r, rr_contributor r) tasks /\
    rr_contributor r = contributor.
Proof.
  intros Hrows r Hr.
  apply get_resolved_returned in Hrows as [-> | Hbody]; [destruct Hr |].
  destruct (get_resolved_body_rows _ _ _ _ _ _ _ Hbody r Hr)
    as (item & _ & _ & Hin & Heq).
  assert (Hc : rr_contributor r = contributor) by (rewrite Heq; reflexivity).
  rewrite Hc. auto.
Qed.

Lemma commit_task_never_closes_inside g owner repo author start_date end_date :
  Forall (fun ev => is_close ev = false /\ is_to_csv ev = false)
         (events (get_commits_for_repo_author g owner repo author start_date end_date)).
Proof.
  unfold get_commits_for_repo_author, get_commits_body, commit_details, print.
  walk_events; split; reflexivity.
Qed.

Lemma resolved_task_never_closes_inside isoformat g tasks contributor start_date end_date :
  Forall (fun ev => is_close ev = false /\ is_to_csv ev = false)
         (events (get_resolved_for_contributor isoformat g tasks contributor
                    start_date end_date)).
Proof.
  unfold get_resolved_for_contributor. apply Forall_events_try_except.
  - rewrite get_resolved_body_events. repeat constructor.
  - intro e. unfold print. walk_events; split; reflexivity.
Qed.


Lemma main_thread_app a b : main_thread (a ++ b) = main_thread a ++ main_thread b.
Proof. apply filter_app. Qed.

Lemma main_thread_of_workers evs :
  Forall (fun ev => by_worker ev = true) evs -> main_thread evs = [].
Proof.
  induction 1 as [| ev evs Hev _ IH]; [reflexivity |].
  unfold main_thread in *. simpl. now rewrite Hev.
Qed.

Lemma main_thread_of_main evs :
  Forall (fun ev => by_worker ev = false) evs -> main_thread evs = evs.
Proof.
  induction 1 as [| ev evs Hev _ IH]; [reflexivity |].
  unfold main_thread in *. simpl. rewrite Hev. simpl. now rewrite IH.
Qed.

Lemma main_thread_flat_map {A} (l : list (M A)) :
  (forall m, In m l -> Forall (fun ev => by_worker ev = true) (events m)) ->
  main_thread (flat_map events l) = [].
Proof.
  intro H. apply main_thread_of_workers, Forall_flat_map, Forall_forall. exact H.
Qed.

Lemma csv_calls_app a b : csv_calls (a ++ b) = csv_calls a ++ csv_calls b.
Proof. apply filter_app. Qed.

Lemma csv_calls_none evs :
  Forall (fun ev => is_to_csv ev = false) evs -> csv_calls evs = [].
Proof.
  induction 1 as [| ev evs Hev _ IH]; [reflexivity |].
  unfold csv_calls in *. simpl. now rewrite Hev.
Qed.

Lemma commit_fetch_by_worker g owner repo author start_date end_date :
  Forall (fun ev => by_worker ev = true)
         (events (get_commits_for_repo_author g owner repo author start_date end_date)).
Proof.
  unfold get_commits_for_repo_author, get_commits_body, commit_details, print.
  walk_events; reflexivity.
Qed.

Lemma resolved_fetch_by_worker isoformat g tasks contributor start_date end_date :
  Forall (fun ev => by_worker ev = true)
         (events (get_resolved_for_contributor isoformat g tasks contributor
                    start_date end_date)).
Proof.
  unfold get_resolved_for_contributor. apply Forall_events_try_except.
  - rewrite get_resolved_body_events. repeat constructor.
  - intro e. unfold print. walk_events; reflexivity.
Qed.

Lemma opening_lines_by_main pi time_start time_end n_tasks max_workers :
  Forall (fun ev => by_worker ev = false)
         (opening_lines pi time_start time_end n_tasks max_workers).
Proof.
  unfold opening_lines. repeat constructor.
  unfold by_worker, str_of_nat. now destruct (Nat.to_uint n_tasks).
Qed.

Lemma progress_lines_by_main total l :
  Forall (fun ev => by_worker ev = false)
         (map (fun k => Print (progress_line total k)) l).
Proof.
  apply Forall_forall. intros ev Hin. apply in_map_iff in Hin as (k & <- & _).
  reflexivity.
Qed.

Section MainExtras.

Variable isoformat : datetime -> string.
Variable remote : option string -> Github.
Variable config : Config.
Variable strptime_Ymd : string -> exn + datetime.
Variable to_csv : forall A : Type, list A -> string -> exn + unit.
Variable as_completed : forall A : Type, list A -> list A.
Hypothesis as_completed_perm : forall A (l : list A), Permutation l (as_completed A l).
Variable schedule : list event -> list event.
Hypothesis schedule_perm : forall evs, Permutation evs (schedule evs).
Hypothesis schedule_main : forall evs, main_thread (schedule evs) = main_thread evs.

Local Abbreviation run := (main isoformat remote config strptime_Ymd to_csv as_completed schedule).
Local Abbreviation block := (pool_block isoformat remote as_completed).
Local Abbreviation commits_task := (process_commits_task remote).
Local Abbreviation resolved_task := (process_resolved_task isoformat remote).
Local Abbreviation commits_done := (done_commits remote as_completed).
Local Abbreviation resolved_done := (done_resolved isoformat remote as_completed).

Lemma closing_trace {A} pi n_commits n_resolved (written written_resolved : exn + unit)
    (tables : A) :
  events (print ("Found " ++ str_of_nat n_commits ++ " authored commits") ;;;
          print ("Found " ++ str_of_nat n_resolved ++ " resolved issues/PRs") ;;;
          emit (ToCsv ("output/" ++ pi ++ "-authored-commits.csv")) ;;;
          lift written ;;;
          print ("Saved to " ++ "output/" ++ pi ++ "-authored-commits.csv") ;;;
          emit (ToCsv ("output/" ++ pi ++ "-resolved-issues-prs.csv")) ;;;
          lift written_resolved ;;;
          print ("Saved to " ++ "output/" ++ pi ++ "-resolved-issues-prs.csv") ;;;
          ret tables) =
  closing_events_until pi n_commits n_resolved written written_resolved.
Proof. destruct written, written_resolved; reflexivity. Qed.

(** The events of a run past its configuration checks. *)
Lemma main_trace token pi max_workers time_range time_start time_end :
  let pi' := resolve_pi config pi in
  let tasks := get_repos_x_contributors_for_pi config pi' in
  let contributors := get_contributors_for_pi config pi' in
  let dc := commits_done token time_start time_end tasks in
  let dr := resolved_done token time_start time_end tasks contributors in
  let df := commits_table remote as_completed token time_start time_end tasks in
  let df_resolved :=
    resolved_table isoformat remote as_completed token time_start time_end
      tasks contributors in
  get_time_range config pi' = Some time_range ->
  strptime_Ymd (fst time_range) = inr time_start ->
  strptime_Ymd (snd time_range) = inr time_end ->
  tasks <> [] ->
  events (run token pi max_workers) =
  opening_lines pi' time_start time_end (length tasks) max_workers
  ++ if Nat.eqb max_workers 0 then [] else
     schedule (events (block token time_start time_end tasks contributors))
     ++ match first_error dc with
        | Some _ => []
        | None =>
            match first_error dr with
            | Some _ => []
            | None =>
                closing_events_until pi' (length df) (length (flat_map rows_of dr))
                  (to_csv _ df (commits_csv pi'))
                  (to_csv _ df_resolved (resolved_csv pi'))
            end
        end.
Proof.
  intros pi' tasks contributors dc dr df df_resolved Hrange Hstart Hend Htasks.
  unfold main. fold pi'. rewrite Hrange.
  rewrite events_bind. cbn [events outcome lift fst snd app]. rewrite Hstart.
  rewrite events_bind. cbn [events outcome lift fst snd app]. rewrite Hend.
  fold tasks contributors.
  rewrite events_bind. cbn [events outcome print emit fst snd app].
  rewrite events_bind. cbn [events outcome print emit fst snd app].
  assert (Hlt : Nat.ltb (length tasks) 1 = false).
  { destruct tasks; [congruence | reflexivity]. }
  rewrite Hlt.
  rewrite events_bind. cbn [events outcome print emit fst snd app].
  unfold opening_lines. cbn [app]. do 3 f_equal.
  rewrite events_bind.
  destruct (Nat.eqb max_workers 0); [reflexivity |].
  cbn [events outcome ret fst snd app].
  rewrite events_bind, events_with_pool, outcome_with_pool, pool_block_outcome.
  fold dc dr. f_equal.
  destruct (first_error dc); [reflexivity |].
  destruct (first_error dr); [reflexivity |].
  cbn [fst snd]. apply closing_trace.
Qed.

Lemma closes_after_block {A B} (dc : list (exn + A)) (dr : list (exn + B)) evs :
  Forall (fun ev => is_close ev = false) evs ->
  closes match first_error dc with
         | Some _ => []
         | None => match first_error dr with Some _ => [] | None => evs end
         end = 0.
Proof.
  intro H. destruct (first_error dc); [reflexivity |].
  destruct (first_error dr); [reflexivity |]. now apply closes_none.
Qed.

Lemma closes_schedule a b : Permutation a b -> closes a = closes b.
Proof.
  unfold closes. induction 1 as [| ev a b _ IH | ev ev' a | a b c _ IH1 _ IH2]; simpl.
  - reflexivity.
  - destruct (is_close ev); simpl; congruence.
  - destruct (is_close ev), (is_close ev'); reflexivity.
  - congruence.
Qed.

Lemma closing_never_closes pi n_commits n_resolved written written_resolved :
  Forall (fun ev => is_close ev = false)
         (closing_events_until pi n_commits n_resolved written written_resolved).
Proof. destruct written, written_resolved; repeat constructor. Qed.

Lemma commits_task_closes token time_start time_end task :
  closes (events (commits_task token time_start time_end task)) = 1.
Proof.
  destruct task as [[owner repo] username]. unfold process_commits_task.
  rewrite events_try_finally_emit, closes_app, closes_none; [reflexivity |].
  eapply Forall_impl; [| apply commit_task_never_closes_inside]. now intros ev [H _].
Qed.

Lemma resolved_task_closes token tasks time_start time_end username :
  closes (events (resolved_task token tasks time_start time_end username)) = 1.
Proof.
  unfold process_resolved_task.
  rewrite events_try_finally_emit, closes_app, closes_none; [reflexivity |].
  eapply Forall_impl; [| apply resolved_task_never_closes_inside]. now intros ev [H _].
Qed.

(** X10.  A task closes its client exactly once, as the last thing it
    does, whether the fetch returned rows, failed and returned none, or
    raised; the result or exception of the fetch is that of the task. *)
Theorem task_closes_its_client_once token tasks time_start time_end :
  (forall owner repo username,
     let fetch := get_commits_for_repo_author (make_client remote token)
                    owner repo username time_start time_end in
     let task := commits_task token time_start time_end (owner, repo, username) in
     events task = events fetch ++ [CallClose] /\
     closes (events task) = 1 /\
     outcome task = outcome fetch) /\
  (forall username,
     let fetch := get_resolved_for_contributor isoformat (make_client remote token)
                    tasks username time_start time_end in
     let task := resolved_task token tasks time_start time_end username in
     events task = events fetch ++ [CallClose] /\
     closes (events task) = 1 /\
     outcome task = outcome fetch).
Proof.
  split.
  - intros owner repo username fetch task. split; [| split].
    + apply events_try_finally_emit.
    + apply commits_task_closes.
    + apply outcome_try_finally_emit.
  - intros username fetch task. split; [| split].
    + apply events_try_finally_emit.
    + apply resolved_task_closes.
    + apply outcome_try_finally_emit.
Qed.

Lemma as_completed_length {A} (l : list A) : length (as_completed A l) = length l.
Proof. symmetry. apply Permutation_length, as_completed_perm. Qed.

Lemma as_completed_In {A} (l : list A) x : In x (as_completed A l) -> In x l.
Proof. apply Permutation_in, Permutation_sym, as_completed_perm. Qed.

(** X11.  A run that gets past its configuration checks closes as many
    clients as it has tasks, one per task triple and one per
    contributor, also when it ends with the exception of a task or of
    writing a file; without a worker it closes none, having made none. *)
Theorem run_closes_every_client token pi max_workers time_range time_start time_end
    (Hrange : get_time_range config (resolve_pi config pi) = Some time_range)
    (Hstart : strptime_Ymd (fst time_range) = inr time_start)
    (Hend : strptime_Ymd (snd time_range) = inr time_end)
    (Htasks : get_repos_x_contributors_for_pi config (resolve_pi config pi) <> []) :
  closes (events (run token pi max_workers)) =
  if Nat.eqb max_workers 0 then 0
  else length (get_repos_x_contributors_for_pi config (resolve_pi config pi))
       + length (get_contributors_for_pi config (resolve_pi config pi)).
Proof.
  rewrite (main_trace token pi max_workers _ _ _ Hrange Hstart Hend Htasks).
  rewrite closes_app.
  rewrite (closes_none (opening_lines _ _ _ _ _)) by (repeat constructor).
  destruct (Nat.eqb max_workers 0); [reflexivity |].
  rewrite closes_app, <- (closes_schedule _ _ (schedule_perm _)), pool_block_events.
  rewrite closes_after_block by apply closing_never_closes. cbv zeta.
  rewrite !closes_app.
  rewrite (closes_none (map SubmitCommits _))
    by (apply Forall_forall; intros ev Hin; apply in_map_iff in Hin as (t & <- & _);
        reflexivity).
  rewrite (closes_none (map (fun c => SubmitResolved (snd c)) _))
    by (apply Forall_forall; intros ev Hin; apply in_map_iff in Hin as (t & <- & _);
        reflexivity).
  rewrite !closes_flat_map, !as_completed_length, !length_map.
  - assert (Hprogress : forall total l,
              closes (map (fun k => Print (progress_line total k)) l) = 0).
    { intros total l. apply closes_none, Forall_forall.
      intros ev Hin. apply in_map_iff in Hin as (k & <- & _). reflexivity. }
    rewrite Hprogress.
    destruct (first_error (commits_done _ _ _ _));
      [change (closes []) with 0; lia |].
    rewrite Hprogress. lia.
  - intros m Hm. apply as_completed_In in Hm. apply in_map_iff in Hm as (c & <- & _).
    apply resolved_task_closes.
  - intros m Hm. apply as_completed_In in Hm. apply in_map_iff in Hm as (t & <- & _).
    apply commits_task_closes.
Qed.

Lemma done_commits_length token time_start time_end tasks :
  length (commits_done token time_start time_end tasks) = length tasks.
Proof. unfold done_commits. now rewrite length_map, as_completed_length, length_map. Qed.

Lemma done_resolved_length token time_start time_end tasks contributors :
  length (resolved_done token time_start time_end tasks contributors) = length contributors.
Proof. unfold done_resolved. now rewrite length_map, as_completed_length, length_map. Qed.

Lemma commits_task_by_worker token time_start time_end task :
  Forall (fun ev => by_worker ev = true)
         (events (commits_task token time_start time_end task)).
Proof.
  destruct task as [[owner repo] username]. unfold process_commits_task.
  rewrite events_try_finally_emit. apply Forall_app. split; [| repeat constructor].
  apply commit_fetch_by_worker.
Qed.

Lemma resolved_task_by_worker token tasks time_start time_end username :
  Forall (fun ev => by_worker ev = true)
         (events (resolved_task token tasks time_start time_end username)).
Proof.
  unfold process_resolved_task.
  rewrite events_try_finally_emit. apply Forall_app. split; [| repeat constructor].
  apply resolved_fetch_by_worker.
Qed.

(** X12.  The main thread of a run that returns has, in this order and
    whatever the worker threads did in between, printed its three
    opening lines, handed the commit tasks and then the resolved-item
    tasks to the pool, printed one progress line per task, numbered from
    1 to the number of tasks without gap across the two kinds of task,
    printed the two counts, and written the two files, the commits
    first.  The first count is the number of rows of the commit table;
    the second is the number of resolved rows before deduplication, so
    it is at least the number of rows of the resolved table. *)
Theorem returning_run_trace token pi max_workers time_range time_start time_end df dfr
    (Hrange : get_time_range config (resolve_pi config pi) = Some time_range)
    (Hstart : strptime_Ymd (fst time_range) = inr time_start)
    (Hend : strptime_Ymd (snd time_range) = inr time_end)
    (Hrun : outcome (run token pi max_workers) = inr (df, dfr)) :
  let pi' := resolve_pi config pi in
  let tasks := get_repos_x_contributors_for_pi config pi' in
  let contributors := get_contributors_for_pi config pi' in
  let total := length tasks + length contributors in
  let all_resolved :=
    flat_map rows_of (resolved_done token time_start time_end tasks contributors) in
  main_thread (events (run token pi max_workers)) =
  opening_lines pi' time_start time_end (length tasks) max_workers
  ++ map SubmitCommits tasks
  ++ map (fun c => SubmitResolved (snd c)) contributors
  ++ map (fun k => Print (progress_line total k)) (seq 1 total)
  ++ closing_events pi' (length df) (length all_resolved) /\
  dfr = drop_duplicates all_resolved /\
  length dfr <= length all_resolved.
Proof.
  intros pi' tasks contributors total all_resolved.
  assert (Htasks : tasks <> []).
  { intro H. destruct (main_without_tasks isoformat remote config strptime_Ymd to_csv
                         as_completed schedule token pi max_workers H) as [[e He] _].
    congruence. }
  rewrite (main_trace token pi max_workers _ _ _ Hrange Hstart Hend Htasks).
  rewrite (main_outcome isoformat remote config strptime_Ymd to_csv as_completed schedule
             token pi max_workers _ _ _ Hrange Hstart Hend Htasks) in Hrun.
  cbv zeta in Hrun. fold pi' tasks contributors total in Hrun |- *.
  destruct (Nat.eqb max_workers 0); [discriminate |].
  rewrite !main_thread_app, schedule_main, pool_block_events.
  cbv zeta. fold total.
  destruct (first_error (commits_done token time_start time_end tasks)) eqn:Hc;
    [discriminate |].
  destruct (first_error (resolved_done token time_start time_end tasks contributors))
    eqn:Hr; [discriminate |].
  destruct (to_csv _ _ (commits_csv pi')); [discriminate |].
  destruct (to_csv _ _ (resolved_csv pi')); [discriminate |].
  injection Hrun as <- <-. unfold resolved_table. fold all_resolved.
  rewrite (collected_all _ Hc), (collected_all _ Hr).
  rewrite done_commits_length, done_resolved_length.
  split; [| split; [reflexivity | apply drop_duplicates_from_length]].
  rewrite !main_thread_app.
  rewrite (main_thread_of_main (opening_lines _ _ _ _ _)) by apply opening_lines_by_main.
  rewrite (main_thread_of_main (map SubmitCommits _))
    by (apply Forall_forall; intros ev Hin; apply in_map_iff in Hin as (t & <- & _);
        reflexivity).
  rewrite (main_thread_of_main (map (fun c => SubmitResolved (snd c)) _))
    by (apply Forall_forall; intros ev Hin; apply in_map_iff in Hin as (t & <- & _);
        reflexivity).
  rewrite !main_thread_flat_map.
  - rewrite !main_thread_of_main by apply progress_lines_by_main.
    rewrite (main_thread_of_main (closing_events_until _ _ _ _ _))
      by (repeat constructor).
    f_equal. rewrite <- !app_assoc. do 2 f_equal. cbn [app].
    rewrite app_assoc, <- map_app. f_equal.
    unfold total. now rewrite seq_app.
  - intros m Hm. apply as_completed_In in Hm. apply in_map_iff in Hm as (c & <- & _).
    apply resolved_task_by_worker.
  - intros m Hm. apply as_completed_In in Hm. apply in_map_iff in Hm as (t & <- & _).
    apply commits_task_by_worker.
Qed.

Lemma commits_task_no_csv token time_start time_end task :
  Forall (fun ev => is_to_csv ev = false)
         (events (commits_task token time_start time_end task)).
Proof.
  destruct task as [[owner repo] username]. unfold process_commits_task.
  rewrite events_try_finally_emit. apply Forall_app. split; [| repeat constructor].
  eapply Forall_impl; [| apply commit_task_never_closes_inside]. now intros ev [_ H].
Qed.

Lemma resolved_task_no_csv token tasks time_start time_end username :
  Forall (fun ev => is_to_csv ev = false)
         (events (resolved_task token tasks time_start time_end username)).
Proof.
  unfold process_resolved_task.
  rewrite events_try_finally_emit. apply Forall_app. split; [| repeat constructor].
  eapply Forall_impl; [| apply resolved_task_never_closes_inside]. now intros ev [_ H].
Qed.

Lemma block_no_csv token time_start time_end tasks contributors :
  Forall (fun ev => is_to_csv ev = false)
         (events (block token time_start time_end tasks contributors)).
Proof.
  rewrite pool_block_events.
  assert (Hprogress : forall total l,
            Forall (fun ev => is_to_csv ev = false)
                   (map (fun k => Print (progress_line total k)) l)).
  { intros total l. apply Forall_forall.
    intros ev Hin. apply in_map_iff in Hin as (k & <- & _). reflexivity. }
  repeat (apply Forall_app; split); auto.
  - apply Forall_forall. intros ev Hin. apply in_map_iff in Hin as (t & <- & _).
    reflexivity.
  - apply Forall_forall. intros ev Hin. apply in_map_iff in Hin as (t & <- & _).
    reflexivity.
  - apply Forall_flat_map, Forall_forall. intros m Hm.
    apply as_completed_In in Hm. apply in_map_iff in Hm as (t & <- & _).
    apply commits_task_no_csv.
  - apply Forall_flat_map, Forall_forall. intros m Hm.
    apply as_completed_In in Hm. apply in_map_iff in Hm as (c & <- & _).
    apply resolved_task_no_csv.
  - destruct (first_error _); [constructor | apply Hprogress].
Qed.

Lemma closing_csv_calls pi n_commits n_resolved written written_resolved :
  csv_calls (closing_events_until pi n_commits n_resolved written written_resolved) =
  ToCsv (commits_csv pi)
  :: match written with inl _ => [] | inr _ => [ToCsv (resolved_csv pi)] end.
Proof. destruct written, written_resolved; reflexivity. Qed.

(** The [to_csv] calls of a run past its configuration checks. *)
Lemma run_csv_calls token pi max_workers time_range time_start time_end :
  let pi' := resolve_pi config pi in
  let tasks := get_repos_x_contributors_for_pi config pi' in
  let contributors := get_contributors_for_pi config pi' in
  get_time_range config pi' = Some time_range ->
  strptime_Ymd (fst time_range) = inr time_start ->
  strptime_Ymd (snd time_range) = inr time_end ->
  tasks <> [] ->
  csv_calls (events (run token pi max_workers)) =
  if Nat.eqb max_workers 0 then [] else
  match first_error (commits_done token time_start time_end tasks) with
  | Some _ => []
  | None =>
      match first_error (resolved_done token time_start time_end tasks contributors) with
      | Some _ => []
      | None =>
          ToCsv (commits_csv pi')
          :: match to_csv _ (commits_table remote as_completed token time_start time_end
                               tasks) (commits_csv pi') with
             | inl _ => []
             | inr _ => [ToCsv (resolved_csv pi')]
             end
      end
  end.
Proof.
  intros pi' tasks contributors Hrange Hstart Hend Htasks.
  rewrite (main_trace token pi max_workers _ _ _ Hrange Hstart Hend Htasks).
  fold pi' tasks contributors.
  rewrite csv_calls_app.
  rewrite (csv_calls_none (opening_lines _ _ _ _ _)) by (repeat constructor).
  destruct (Nat.eqb max_workers 0); [reflexivity |].
  rewrite csv_calls_app, (csv_calls_none (schedule _)).
  2: { eapply Permutation_Forall; [apply schedule_perm |]. apply block_no_csv. }
  cbn [app].
  destruct (first_error (commits_done _ _ _ _)); [reflexivity |].
  destruct (first_error (resolved_done _ _ _ _ _)); [reflexivity |].
  apply closing_csv_calls.
Qed.

(** A run stopped by a configuration check has made no [to_csv] call. *)
Lemma run_stopped_by_check token pi max_workers :
  (forall time_range time_start time_end,
     get_time_range config (resolve_pi config pi) = Some time_range ->
     strptime_Ymd (fst time_range) = inr time_start ->
     strptime_Ymd (snd time_range) = inr time_end ->
     get_repos_x_contributors_for_pi config (resolve_pi config pi) = []) ->
  csv_calls (events (run token pi max_workers)) = [].
Proof.
  intro Hstopped.
  destruct (get_time_range config (resolve_pi config pi)) as [time_range |] eqn:Hrange.
  2: { unfold main. rewrite Hrange. reflexivity. }
  destruct (strptime_Ymd (fst time_range)) as [e1 | time_start] eqn:Hstart.
  { unfold main. rewrite Hrange. cbn. rewrite Hstart. reflexivity. }
  destruct (strptime_Ymd (snd time_range)) as [e2 | time_end] eqn:Hend.
  { unfold main. rewrite Hrange. cbn. rewrite Hstart. cbn. rewrite Hend. reflexivity. }
  specialize (Hstopped _ _ _ eq_refl Hstart Hend).
  unfold main. rewrite Hrange, Hstopped. cbn. rewrite Hstart. cbn. rewrite Hend.
  reflexivity.
Qed.

Lemma first_error_None_returns {A B} (task : A -> M B) tasks order :
  Permutation tasks order ->
  first_error (map (fun t => outcome (task t)) order) = None ->
  forall t, In t tasks -> exists rows, outcome (task t) = inr rows.
Proof.
  intros Hperm Hnone t Ht. rewrite first_error_None_all in Hnone.
  apply Hnone, in_map_iff. exists t. split; auto.
  eapply Permutation_in; eauto.
Qed.

Lemma returns_first_error_None {A B} (task : A -> M B) tasks order :
  Permutation tasks order ->
  (forall t, In t tasks -> exists rows, outcome (task t) = inr rows) ->
  first_error (map (fun t => outcome (task t)) order) = None.
Proof.
  intros Hperm Hall. apply first_error_None_all. intros r Hr.
  apply in_map_iff in Hr as (t & <- & Ht). apply Hall.
  eapply Permutation_in; [apply Permutation_sym|]; eauto.
Qed.

Lemma first_error_Some_raised {A B} (task : A -> M B) tasks order e :
  Permutation tasks order ->
  first_error (map (fun t => outcome (task t)) order) = Some e ->
  exists t, In t tasks /\ outcome (task t) = inl e.
Proof.
  intros Hperm Hsome. apply first_error_Some_In in Hsome.
  apply in_map_iff in Hsome as (t & Ht & Hin). exists t. split; auto.
  eapply Permutation_in; [apply Permutation_sym|]; eauto.
Qed.

(** X13.  The run calls [to_csv] only once every task has returned: a
    [to_csv] call is made only by a run with a worker whose date range
    is known and readable, whose task list is not empty and whose tasks
    have all returned, first for the commits file, and for the
    resolved-items file only when the commits file was written.  So a
    run that raises has made no [to_csv] call, unless its error is that
    of a [to_csv] call it made. *)
Theorem run_writes_only_after_every_task token pi max_workers :
  let pi' := resolve_pi config pi in
  let tasks := get_repos_x_contributors_for_pi config pi' in
  let contributors := get_contributors_for_pi config pi' in
  (forall filename,
     In (ToCsv filename) (events (run token pi max_workers)) ->
     0 < max_workers /\
     tasks <> [] /\
     exists time_range time_start time_end,
       get_time_range config pi' = Some time_range /\
       strptime_Ymd (fst time_range) = inr time_start /\
       strptime_Ymd (snd time_range) = inr time_end /\
       (forall t, In t tasks ->
          exists rows, outcome (commits_task token time_start time_end t) = inr rows) /\
       (forall c, In c contributors ->
          exists rows, outcome (resolved_task token tasks time_start time_end (snd c))
                       = inr rows) /\
       (filename = commits_csv pi' \/
        filename = resolved_csv pi' /\
        to_csv _ (commits_table remote as_completed token time_start time_end tasks)
          (commits_csv pi') = inr tt)) /\
  (forall e,
     outcome (run token pi max_workers) = inl e ->
     Forall (fun ev => is_to_csv ev = false) (events (run token pi max_workers)) \/
     exists (A : Type) (table : list A) filename,
       In (ToCsv filename) (events (run token pi max_workers)) /\
       to_csv A table filename = inl e).
Proof.
  intros pi' tasks contributors.
  assert (Hno_call : forall evs, csv_calls evs = [] ->
                                 Forall (fun ev => is_to_csv ev = false) evs).
  { intros evs Hnil. apply Forall_forall. intros ev Hin.
    destruct (is_to_csv ev) eqn:E; [| reflexivity].
    assert (Hcall : In ev (csv_calls evs)) by (apply filter_In; auto).
    rewrite Hnil in Hcall. destruct Hcall. }
  assert (Hcall : forall evs filename, In (ToCsv filename) evs ->
                                       In (ToCsv filename) (csv_calls evs)).
  { intros evs filename Hin. apply filter_In. auto. }
  destruct (get_time_range config pi') as [time_range |] eqn:Hrange.
  2: { assert (Hnil : csv_calls (events (run token pi max_workers)) = []).
       { apply run_stopped_by_check. fold pi'. rewrite Hrange. discriminate. }
       split; [| auto].
       intros filename Hin. apply Hcall in Hin. rewrite Hnil in Hin. destruct Hin. }
  destruct (strptime_Ymd (fst time_range)) as [e1 | time_start] eqn:Hstart.
  { assert (Hnil : csv_calls (events (run token pi max_workers)) = []).
    { apply run_stopped_by_check. fold pi'. rewrite Hrange.
      intros ? ? ? [= <-]. congruence. }
    split; [| auto].
    intros filename Hin. apply Hcall in Hin. rewrite Hnil in Hin. destruct Hin. }
  destruct (strptime_Ymd (snd time_range)) as [e2 | time_end] eqn:Hend.
  { assert (Hnil : csv_calls (events (run token pi max_workers)) = []).
    { apply run_stopped_by_check. fold pi'. rewrite Hrange.
      intros ? ? ? [= <-]. congruence. }
    split; [| auto].
    intros filename Hin. apply Hcall in Hin. rewrite Hnil in Hin. destruct Hin. }
  destruct tasks as [| t0 ts] eqn:Etasks.
  { assert (Hnil : csv_calls (events (run token pi max_workers)) = []).
    { apply run_stopped_by_check. intros. exact Etasks. }
    split; [| auto].
    intros filename Hin. apply Hcall in Hin. rewrite Hnil in Hin. destruct Hin. }
  rewrite <- Etasks in *.
  assert (Htasks : tasks <> []) by (rewrite Etasks; discriminate).
  pose proof (run_csv_calls token pi max_workers _ _ _ Hrange Hstart Hend Htasks)
    as Hcalls.
  pose proof (main_outcome isoformat remote config strptime_Ymd to_csv as_completed schedule
                token pi max_workers _ _ _ Hrange Hstart Hend Htasks) as Hout.
  cbv zeta in Hcalls, Hout. fold pi' tasks contributors in Hcalls, Hout.
  destruct (done_commits_order remote as_completed
              as_completed_perm token time_start time_end tasks)
    as (order_c & Hperm_c & Hdone_c).
  destruct (done_resolved_order isoformat remote as_completed
              as_completed_perm token time_start time_end tasks contributors)
    as (order_r & Hperm_r & Hdone_r).
  split.
  - intros filename Hin. apply Hcall in Hin. rewrite Hcalls in Hin.
    destruct (Nat.eqb max_workers 0) eqn:Hpool; [destruct Hin |].
    apply Nat.eqb_neq in Hpool.
    destruct (first_error (commits_done _ _ _ _)) eqn:Hc; [destruct Hin |].
    destruct (first_error (resolved_done _ _ _ _ _)) eqn:Hr; [destruct Hin |].
    split; [lia |]. split; [exact Htasks |].
    exists time_range, time_start, time_end.
    rewrite Hdone_c in Hc. rewrite Hdone_r in Hr.
    split; [reflexivity |]. split; [exact Hstart |]. split; [exact Hend |].
    split; [exact (first_error_None_returns _ _ _ Hperm_c Hc) |].
    split.
    { exact (first_error_None_returns
               (fun c => resolved_task token tasks time_start time_end (snd c))
               _ _ Hperm_r Hr). }
    destruct Hin as [[= <-] | Hin]; [now left |]. right.
    destruct (to_csv _ _ (commits_csv pi')) as [e | []]; [destruct Hin |].
    destruct Hin as [[= <-] | []]. auto.
  - intros e He. rewrite Hout in He.
    destruct (Nat.eqb max_workers 0); [left; now apply Hno_call |].
    destruct (first_error (commits_done _ _ _ _)); [left; now apply Hno_call |].
    destruct (first_error (resolved_done _ _ _ _ _)); [left; now apply Hno_call |].
    right.
    assert (Hfirst : In (ToCsv (commits_csv pi')) (events (run token pi max_workers))).
    { apply (proj1 (filter_In is_to_csv _ _)).
      fold (csv_calls (events (run token pi max_workers))). rewrite Hcalls. now left. }
    destruct (to_csv _ _ (commits_csv pi')) as [e1 | u1] eqn:Hcsv1.
    + injection He as ->. eauto.
    + destruct (to_csv _ _ (resolved_csv pi')) as [e2 | u2] eqn:Hcsv2;
        [| discriminate].
      injection He as ->. do 2 eexists. exists (resolved_csv pi'). split; [| exact Hcsv2].
      apply (proj1 (filter_In is_to_csv _ _)).
      fold (csv_calls (events (run token pi max_workers))). rewrite Hcalls.
      right. now left.
Qed.

(** X14.  A run with a worker that gets past its configuration checks
    returns exactly when no task raised and the two files were written.
    Otherwise it raises the exception of a task, that of a commit task
    when one raised and that of a resolved-item task only when every
    commit task returned, or, every task having returned, the error of
    the first file that could not be written. *)
Theorem run_returns_iff_no_task_raises token pi max_workers
    time_range time_start time_end
    (Hrange : get_time_range config (resolve_pi config pi) = Some time_range)
    (Hstart : strptime_Ymd (fst time_range) = inr time_start)
    (Hend : strptime_Ymd (snd time_range) = inr time_end)
    (Htasks : get_repos_x_contributors_for_pi config (resolve_pi config pi) <> [])
    (Hworkers : 0 < max_workers) :
  let tasks := get_repos_x_contributors_for_pi config (resolve_pi config pi) in
  let contributors := get_contributors_for_pi config (resolve_pi config pi) in
  let commits_return :=
    forall t, In t tasks ->
      exists rows, outcome (commits_task token time_start time_end t) = inr rows in
  let resolved_return :=
    forall c, In c contributors ->
      exists rows, outcome (resolved_task token tasks time_start time_end (snd c))
                   = inr rows in
  let written :=
    to_csv _ (commits_table remote as_completed token time_start time_end tasks)
      (commits_csv (resolve_pi config pi)) in
  let written_resolved :=
    to_csv _ (resolved_table isoformat remote as_completed token time_start time_end
                tasks contributors)
      (resolved_csv (resolve_pi config pi)) in
  ((exists tables, outcome (run token pi max_workers) = inr tables) <->
   commits_return /\ resolved_return /\ written = inr tt /\ written_resolved = inr tt) /\
  (forall e, outcome (run token pi max_workers) = inl e ->
     (exists t, In t tasks /\ outcome (commits_task token time_start time_end t) = inl e) \/
     (commits_return /\
      exists c, In c contributors /\
                outcome (resolved_task token tasks time_start time_end (snd c)) = inl e) \/
     (commits_return /\ resolved_return /\
      (written = inl e \/ written = inr tt /\ written_resolved = inl e))).
Proof.
  intros tasks contributors commits_return resolved_return written written_resolved.
  pose proof (main_outcome isoformat remote config strptime_Ymd to_csv as_completed schedule
                token pi max_workers _ _ _ Hrange Hstart Hend Htasks) as Hout.
  cbv zeta in Hout. fold tasks contributors in Hout.
  fold written written_resolved in Hout.
  rewrite (proj2 (Nat.eqb_neq max_workers 0)) in Hout by lia.
  destruct (done_commits_order remote as_completed
              as_completed_perm token time_start time_end tasks)
    as (order_c & Hperm_c & Hdone_c).
  destruct (done_resolved_order isoformat remote as_completed
              as_completed_perm token time_start time_end tasks contributors)
    as (order_r & Hperm_r & Hdone_r).
  assert (Hc : first_error (commits_done token time_start time_end tasks) = None
               <-> commits_return).
  { rewrite Hdone_c. split.
    - exact (first_error_None_returns _ _ _ Hperm_c).
    - exact (returns_first_error_None _ _ _ Hperm_c). }
  assert (Hr : first_error (resolved_done token time_start time_end tasks contributors)
               = None <-> resolved_return).
  { rewrite Hdone_r. split.
    - exact (first_error_None_returns
               (fun c => resolved_task token tasks time_start time_end (snd c))
               _ _ Hperm_r).
    - exact (returns_first_error_None
               (fun c => resolved_task token tasks time_start time_end (snd c))
               _ _ Hperm_r). }
  split.
  - rewrite Hout, <- Hc, <- Hr.
    destruct (first_error (commits_done _ _ _ _)) as [e1 |].
    + split; [intros [tables H]; discriminate | intros [H _]; discriminate].
    + destruct (first_error (resolved_done _ _ _ _ _)) as [e2 |].
      * split; [intros [tables H]; discriminate | intros (_ & H & _); discriminate].
      * destruct written as [e3 | []].
        { split; [intros [tables H]; discriminate | intros (_ & _ & H & _); discriminate]. }
        destruct written_resolved as [e4 | []].
        { split; [intros [tables H]; discriminate | intros (_ & _ & _ & H); discriminate]. }
        split; eauto.
  - intros e He. rewrite Hout in He.
    destruct (first_error (commits_done _ _ _ _)) as [e1 |] eqn:E1.
    + injection He as ->. left. rewrite Hdone_c in E1.
      exact (first_error_Some_raised _ _ _ _ Hperm_c E1).
    + right. pose proof (proj1 Hc eq_refl) as Hret.
      destruct (first_error (resolved_done _ _ _ _ _)) as [e2 |] eqn:E2.
      * injection He as ->. left. split; [exact Hret |]. rewrite Hdone_r in E2.
        exact (first_error_Some_raised
                 (fun c => resolved_task token tasks time_start time_end (snd c))
                 _ _ _ Hperm_r E2).
      * right. split; [exact Hret |]. split; [exact (proj1 Hr eq_refl) |].
        destruct written as [e3 | []]; [injection He as ->; now left |].
        destruct written_resolved as [e4 | []]; [| discriminate].
        injection He as ->. right. auto.
Qed.

(** X15.  In the tables of a run that returns, every commit row has the
    owner and repository of a task triple, and every resolved row has
    the owner, repository and contributor of a task triple, its
    contributor being one of the configured contributors. *)
Theorem tables_stay_within_tasks token pi max_workers time_range time_start time_end df dfr
    (Hrange : get_time_range config (resolve_pi config pi) = Some time_range)
    (Hstart : strptime_Ymd (fst time_range) = inr time_start)
    (Hend : strptime_Ymd (snd time_range) = inr time_end)
    (Hrun : outcome (run token pi max_workers) = inr (df, dfr)) :
  let tasks := get_repos_x_contributors_for_pi config (resolve_pi config pi) in
  let contributors := get_contributors_for_pi config (resolve_pi config pi) in
  (forall row, In row df ->
     exists username, In (cr_organization row, cr_repository row, username) tasks) /\
  (forall r, In r dfr ->
     In (rr_organization r, rr_repository r, rr_contributor r) tasks /\
     In (rr_contributor r) (map snd contributors)).
Proof.
  intros tasks contributors.
  assert (Htasks : tasks <> []).
  { intro H. destruct (main_without_tasks isoformat remote config strptime_Ymd to_csv
                         as_completed schedule token pi max_workers H) as [[e He] _].
    congruence. }
  rewrite (main_outcome isoformat remote config strptime_Ymd to_csv as_completed schedule
             token pi max_workers _ _ _ Hrange Hstart Hend Htasks) in Hrun.
  cbv zeta in Hrun. fold tasks contributors in Hrun.
  destruct (Nat.eqb max_workers 0); [discriminate |].
  destruct (first_error (commits_done _ _ _ _)); [discriminate |].
  destruct (first_error (resolved_done _ _ _ _ _)); [discriminate |].
  destruct (to_csv _ _ (commits_csv _)); [discriminate |].
  destruct (to_csv _ _ (resolved_csv _)); [discriminate |].
  injection Hrun as <- <-. unfold commits_table, resolved_table.
  destruct (done_commits_order remote as_completed
              as_completed_perm token time_start time_end tasks)
    as (order_c & Hperm_c & ->).
  destruct (done_resolved_order isoformat remote as_completed
              as_completed_perm token time_start time_end tasks contributors)
    as (order_r & Hperm_r & ->).
  split.
  - intros row Hrow. apply in_flat_map in Hrow as (res & Hres & Hrow).
    apply in_map_iff in Hres as (t & <- & Ht).
    apply (Permutation_in _ (Permutation_sym Hperm_c)) in Ht.
    destruct t as [[owner repo] username].
    unfold process_commits_task in Hrow. rewrite outcome_try_finally_emit in Hrow.
    destruct (outcome (get_commits_for_repo_author _ owner repo username _ _))
      as [e | rows] eqn:Hout; [destruct Hrow |].
    destruct (commit_rows_owner_repo _ _ _ _ _ _ _ Hout row Hrow) as [-> ->].
    now exists username.
  - intros r Hr. apply drop_duplicates_from_incl in Hr.
    apply in_flat_map in Hr as (res & Hres & Hr).
    apply in_map_iff in Hres as (c & <- & Hc).
    apply (Permutation_in _ (Permutation_sym Hperm_r)) in Hc.
    unfold process_resolved_task in Hr. rewrite outcome_try_finally_emit in Hr.
    destruct (outcome (get_resolved_for_contributor _ _ tasks (snd c) _ _))
      as [e | rows] eqn:Hout; [destruct Hr |].
    destruct (resolved_rows_triple _ _ _ _ _ _ _ Hout r Hr) as [Hin Hcontrib].
    split; auto. rewrite Hcontrib. now apply in_map.
Qed.

(** X17.  The script authenticates its clients with the value of the
    variable [settings] names when it is set and not empty, else with
    the value of GITHUB_TOKEN when that is set and not empty; with
    neither, also when both are set to the empty string, its clients
    are anonymous. *)
Theorem script_clients_use_first_token (environ : string -> option string)
    (TOKEN_ENV_VAR : string) :
  make_client remote (script_token environ TOKEN_ENV_VAR) =
  match environ TOKEN_ENV_VAR with
  | Some (String c s) => remote (Some (String c s))
  | _ =>
      match environ "GITHUB_TOKEN" with
      | Some (String c s) => remote (Some (String c s))
      | _ => remote None
      end
  end.
Proof.
  unfold script_token, make_client.
  destruct (environ TOKEN_ENV_VAR) as [[| c s] |]; try reflexivity;
    destruct (environ "GITHUB_TOKEN") as [[| c' s'] |]; reflexivity.
Qed.

End MainExtras.

(** * The further properties on the sample world *)

Lemma commit_rows_come_from_listing_on_sample :
  Forall (fun row => cr_organization row = "org" /\ cr_repository row = "repo")
         (rows_of (outcome (get_commits_for_repo_author sample_github "org" "repo" "ada"
                              sample_start sample_end))).
Proof.
  apply Forall_forall. intros row Hrow.
  destruct (commit_rows_come_from_listing sample_github "org" "repo" "ada"
              sample_start sample_end _ eq_refl row Hrow) as (Horg & Hrepo & _).
  split; assumption.
Defined.

Lemma commit_rows_have_distinct_shas_on_sample :
  NoDup (map cr_sha (rows_of (outcome (get_commits_for_repo_author sample_github
                                         "org" "repo" "ada" sample_start sample_end)))).
Proof.
  apply (commit_rows_have_distinct_shas sample_github "org" "repo" "ada"
           sample_start sample_end sample_repository (map fst scenario_commits)).
  - reflexivity.
  - reflexivity.
  - simpl.
    repeat (constructor;
            [intro H; simpl in H;
             repeat (destruct H as [H | H]; [discriminate H |]); destruct H |]).
    constructor.
  - reflexivity.
Defined.

Lemma commit_rows_lost_on_failed_lookup_on_sample :
  rows_of (outcome (get_commits_for_repo_author faulty_github "org" "repo" "ada"
                      sample_start sample_end)) = [].
Proof.
  eapply (commit_rows_lost_on_failed_lookup faulty_github "org" "repo" "ada"
            sample_start sample_end).
  - reflexivity.
  - reflexivity.
  - right. left. reflexivity.
  - reflexivity.
  - reflexivity.
Defined.

Lemma commit_task_looks_at_every_commit_on_sample :
  events (get_commits_for_repo_author sample_github "org" "repo" "ada"
            sample_start sample_end) =
  [CallGetRepo "org/repo"; CallGetCommits "ada" sample_start sample_end;
   CallGetPulls "a"; CallGetPulls "b"; CallGetPulls "c"; CallGetPulls "d"].
Proof.
  apply (commit_task_looks_at_every_commit sample_github "org" "repo" "ada"
           sample_start sample_end sample_repository (map fst scenario_commits)).
  - reflexivity.
  - reflexivity.
  - intros c H. simpl in H.
    repeat (destruct H as [<- | H]; [eexists; reflexivity |]). destruct H.
  - intros c H. simpl in H.
    repeat (destruct H as [<- | H]; [eexists; reflexivity |]). destruct H.
Defined.

Lemma resolved_rows_are_the_results_in_scope_on_sample :
  outcome (get_resolved_for_contributor sample_isoformat sample_github alice_tasks
             "alice" sample_start sample_end) =
  inr [resolved_details sample_isoformat (sample_item 7 "org" "repo" None)
         "org" "repo" "alice";
       resolved_details sample_isoformat
         (sample_item 9 "org" "repo" (Some "https://github.com/org/repo/pull/9"))
         "org" "repo" "alice"].
Proof.
  apply (resolved_rows_are_the_results_in_scope sample_isoformat sample_github alice_tasks
           "alice" sample_start sample_end
           [sample_item 7 "org" "repo" None; sample_item 8 "org" "other" None]
           [sample_item 9 "org" "repo" (Some "https://github.com/org/repo/pull/9")]).
  - reflexivity.
  - reflexivity.
  - intros item H. simpl in H.
    repeat (destruct H as [<- | H]; [eexists; reflexivity |]). destruct H.
Defined.

Lemma contributor_without_task_has_no_row_on_sample :
  rows_of (outcome (get_resolved_for_contributor sample_isoformat sample_github
                      alice_tasks "bob" sample_start sample_end)) = [].
Proof.
  apply (contributor_without_task_has_no_row sample_isoformat sample_github alice_tasks
           "bob" sample_start sample_end).
  - intros owner repo [H | []]. discriminate H.
  - reflexivity.
Defined.

Lemma queries_are_joined_qualifiers_on_sample :
  prs_query [ada_task; missing_task] "ada" sample_start sample_end =
  join " " ["is:pr"; "repo:org/repo"; "repo:org/missing"; "involves:ada";
            "closed:2026-01-05..2026-03-27"; "-author:ada"].
Proof.
  assert (Htasks : [ada_task; missing_task] <> []) by discriminate.
  exact (proj2 (proj2 (proj2 (queries_are_joined_qualifiers [ada_task; missing_task]
                                "ada" sample_start sample_end Htasks)))).
Defined.

Lemma run_closes_every_client_on_interrupted_run :
  closes (events (sample_main interrupted_github [ada_task] [("Ada", "ada")] None)) = 2.
Proof.
  assert (Htasks : [ada_task] <> []) by discriminate.
  exact (run_closes_every_client sample_isoformat (fun _ => interrupted_github)
           (sample_config [ada_task] [("Ada", "ada")]) sample_strptime writable last_first
           last_first_perm workers_first workers_first_perm
           (Some "token") None 10 ("20260105", "20260327")
           sample_start sample_end eq_refl eq_refl eq_refl Htasks).
Defined.

Lemma returning_run_trace_on_sample :
  main_thread (events (sample_main sample_github [ada_task] [("Ada", "ada")] None)) =
  [Print "PI: pi-26.1 (2026-01-05 to 2026-03-27)";
   Print "  1 repos x contributors";
   Print "Querying 1 repo×contributor combinations with 10 workers...";
   SubmitCommits ada_task;
   SubmitResolved "ada";
   Print "  Progress: 1/2";
   Print "  Progress: 2/2";
   Print "Found 2 authored commits";
   Print "Found 2 resolved issues/PRs";
   ToCsv "output/pi-26.1-authored-commits.csv";
   Print "Saved to output/pi-26.1-authored-commits.csv";
   ToCsv "output/pi-26.1-resolved-issues-prs.csv";
   Print "Saved to output/pi-26.1-resolved-issues-prs.csv"].
Proof.
  unfold sample_main.
  rewrite (proj1 (returning_run_trace sample_isoformat (fun _ => sample_github)
                    (sample_config [ada_task] [("Ada", "ada")]) sample_strptime writable
                    last_first last_first_perm workers_first workers_first_main
                    (Some "token") None 10
                    ("20260105", "20260327") sample_start sample_end
                    (fst (tables (sample_main sample_github [ada_task]
                                    [("Ada", "ada")] None)))
                    (snd (tables (sample_main sample_github [ada_task]
                                    [("Ada", "ada")] None)))
                    eq_refl eq_refl eq_refl eq_refl)).
  reflexivity.
Defined.

Lemma run_writes_only_after_every_task_on_sample :
  Forall (fun ev => is_to_csv ev = false)
         (events (sample_main interrupted_github [ada_task] [("Ada", "ada")] None)).
Proof.
  destruct (proj2 (run_writes_only_after_every_task sample_isoformat
                     (fun _ => interrupted_github)
                     (sample_config [ada_task] [("Ada", "ada")]) sample_strptime writable
                     last_first last_first_perm workers_first workers_first_perm
                     (Some "token") None 10)
                  (mk_exn KeyboardInterrupt "") eq_refl)
    as [Hnone | (A & table & filename & _ & Hwritten)].
  - exact Hnone.
  - discriminate Hwritten.
Defined.

Lemma run_returns_iff_no_task_raises_on_sample :
  exists tables,
    outcome (sample_main sample_github [ada_task; missing_task] [("Ada", "ada")] None)
    = inr tables.
Proof.
  assert (Htasks : [ada_task; missing_task] <> []) by discriminate.
  assert (Hworkers : 0 < 10) by lia.
  apply (proj1 (run_returns_iff_no_task_raises sample_isoformat (fun _ => sample_github)
                  (sample_config [ada_task; missing_task] [("Ada", "ada")])
                  sample_strptime writable last_first last_first_perm workers_first
                  (Some "token") None 10
                  ("20260105", "20260327") sample_start sample_end
                  eq_refl eq_refl eq_refl Htasks Hworkers)).
  split; [| split; [| split]].
  - intros t [<- | [<- | []]]; eexists; reflexivity.
  - intros c [<- | []]. eexists. reflexivity.
  - reflexivity.
  - reflexivity.
Defined.

Lemma tables_stay_within_tasks_on_sample :
  (forall row,
     In row (fst (tables (sample_main sample_github two_reviewers_tasks
                            two_reviewers None))) ->
     exists username,
       In (cr_organization row, cr_repository row, username) two_reviewers_tasks) /\
  (forall r,
     In r (snd (tables (sample_main sample_github two_reviewers_tasks
                          two_reviewers None))) ->
     In (rr_organization r, rr_repository r, rr_contributor r) two_reviewers_tasks /\
     In (rr_contributor r) (map snd two_reviewers)).
Proof.
  exact (tables_stay_within_tasks sample_isoformat (fun _ => sample_github)
           (sample_config two_reviewers_tasks two_reviewers) sample_strptime writable last_first
           last_first_perm workers_first (Some "token") None 10 ("20260105", "20260327")
           sample_start sample_end _ _ eq_refl eq_refl eq_refl eq_refl).
Defined.
